(** * mlp: error functions and parameter initialisers

    A shallow embedding of [mlp/errors.py] and [mlp/initialisers.py].

    The Python code is written against numpy and is generic in the element
    type of its arrays, so the embedding is generic in a type of scalars
    (class [Scalar]).  Two instances are given:

    - [binary64]: IEEE 754 double precision, numpy's default [float64] and
      Python's [float], through the executable specification of the
      Standard Library ([SpecFloat]);
    - [exact]: the real numbers, the arithmetic the formulas of the
      docstrings are written in.

    numpy arrays are a shape and a row-major list of elements; Python
    exceptions are an error monad; the [RandomState] objects the
    initialisers hold are cells of an explicit heap, so that sharing a
    generator between initialisers is visible. *)

From Stdlib Require Import ZArith List Bool Lia Reals Lra Psatz.
From Stdlib Require Import Permutation.
From Stdlib Require Import Floats.SpecFloat.
From stdpp Require Import base gmap.
Import ListNotations.

Set Implicit Arguments.

(** ** Python exceptions *)

Inductive exception : Type :=
| ZeroDivisionError   (* division or modulo by zero *)
| IndexError          (* tuple index out of range *)
| ValueError          (* numpy: operands could not be broadcast together,
                         negative dimensions are not allowed, too many
                         dimensions, scale < 0 *)
| OverflowError       (* numpy: range exceeds valid bounds *)
| DanglingReference.  (* a heap address with no object: never raised by
                         the code, it keeps the heap lookup total *)

Inductive result (A : Type) : Type :=
| Ok (a : A)
| Raise (e : exception).

Arguments Ok {A} a.
Arguments Raise {A} e.

Definition bind {A B : Type} (r : result A) (k : A -> result B) : result B :=
  match r with
  | Ok a => k a
  | Raise e => Raise e
  end.

Declare Scope py_scope.
Delimit Scope py_scope with py.
Notation "'let*' x ':=' r 'in' k" := (bind r (fun x => k))
  (at level 10, x name, r at level 100, k at level 200) : py_scope.
Open Scope py_scope.

(** ** Scalars

    The operations numpy and Python apply to array elements and to Python
    numbers.  [f_truediv a b] is Python's [a / b] on two [int]s with
    [b <> 0]: the correctly rounded quotient.  [f_of_int] is the conversion
    of a Python [int] passed where numpy expects a double. *)

Class Scalar (F : Type) : Type := {
  f_zero : F;
  f_one : F;
  f_half : F;
  f_add : F -> F -> F;
  f_sub : F -> F -> F;
  f_mul : F -> F -> F;
  f_div : F -> F -> F;
  f_neg : F -> F;
  f_sqrt : F -> F;
  f_of_int : Z -> F;
  f_truediv : Z -> Z -> F;
  f_signbit : F -> bool;
  f_is_finite : F -> bool;    (* neither an infinity nor NaN *)
  f_eq : F -> F -> Prop;      (* x == y *)
  f_le : F -> F -> Prop;      (* x <= y *)
  f_lt : F -> F -> Prop       (* x < y *)
}.

(** *** binary64 *)

Module B64.

Definition prec : Z := 53.
Definition emax : Z := 1024.

Definition t : Type := spec_float.

(** The double nearest to [m * 2^e]. *)
Definition lit (m e : Z) : t := binary_normalize prec emax m e false.

Definition of_int (n : Z) : t := lit n 0.

Definition add : t -> t -> t := SFadd prec emax.
Definition sub : t -> t -> t := SFsub prec emax.
Definition mul : t -> t -> t := SFmul prec emax.
Definition div : t -> t -> t := SFdiv prec emax.
Definition sqrt : t -> t := SFsqrt prec emax.
Definition neg : t -> t := SFopp.

(** Python's [int / int]: the quotient of the two integers rounded once,
    to nearest even; the sign of a zero quotient is the sign of the
    exact quotient's operands. *)
Definition truediv (a b : Z) : t :=
  match a, b with
  | _, Z0 => S754_nan
  | Z0, _ => S754_zero (b <? 0)%Z
  | _, _ =>
      let '(q, e, l) :=
        SFdiv_core_binary prec emax (Z.abs a) 0 (Z.abs b) 0 in
      binary_round_aux prec emax (xorb (a <? 0)%Z (b <? 0)%Z) q e l
  end.

Definition signbit (x : t) : bool :=
  match x with
  | S754_zero s | S754_infinity s | S754_finite s _ _ => s
  | S754_nan => false
  end.

Definition is_nan (x : t) : bool :=
  match x with S754_nan => true | _ => false end.

Definition is_finite (x : t) : bool :=
  match x with
  | S754_zero _ | S754_finite _ _ _ => true
  | _ => false
  end.

Definition eqb : t -> t -> bool := SFeqb.
Definition leb : t -> t -> bool := SFleb.
Definition ltb : t -> t -> bool := SFltb.

End B64.

#[export] Instance binary64 : Scalar B64.t := {
  f_zero := S754_zero false;
  f_one := B64.lit 1 0;
  f_half := B64.lit 1 (-1);
  f_add := B64.add;
  f_sub := B64.sub;
  f_mul := B64.mul;
  f_div := B64.div;
  f_neg := B64.neg;
  f_sqrt := B64.sqrt;
  f_of_int := B64.of_int;
  f_truediv := B64.truediv;
  f_signbit := B64.signbit;
  f_is_finite := B64.is_finite;
  f_eq := fun x y => B64.eqb x y = true;
  f_le := fun x y => B64.leb x y = true;
  f_lt := fun x y => B64.ltb x y = true
}.

(** *** Exact arithmetic *)

#[export] Instance exact : Scalar R := {
  f_zero := 0%R;
  f_one := 1%R;
  f_half := (1 / 2)%R;
  f_add := Rplus;
  f_sub := Rminus;
  f_mul := Rmult;
  f_div := Rdiv;
  f_neg := Ropp;
  f_sqrt := sqrt;
  f_of_int := IZR;
  f_truediv := fun a b => (IZR a / IZR b)%R;
  f_signbit := fun x => if Rlt_dec x 0 then true else false;
  f_is_finite := fun _ => true;
  f_eq := @eq R;
  f_le := Rle;
  f_lt := Rlt
}.

(** ** numpy arrays *)

Section Numpy.

Context {F : Type} `{Scalar F}.

(** An array is its shape and its elements in row-major (C) order. *)
Record ndarray : Type := { shape : list nat; data : list F }.

Definition shape_size (s : list nat) : nat := fold_right Nat.mul 1 s.

Definition well_formed (a : ndarray) : Prop :=
  length (data a) = shape_size (shape a).

(** [t[i]] on a tuple. *)
Definition tuple_index {A : Type} (t : list A) (i : nat) : result A :=
  match nth_error t i with
  | Some x => Ok x
  | None => Raise IndexError
  end.

(** Python's [a / b] on two [int]s. *)
Definition py_truediv (a b : Z) : result F :=
  if (b =? 0)%Z then Raise ZeroDivisionError else Ok (f_truediv a b).

(** The largest number of dimensions of an array (numpy 1; numpy 2
    allows 64). *)
Definition NPY_MAXDIMS : nat := 32.

(** A requested shape is a tuple of Python [int]s; numpy refuses
    negative dimensions and more than [NPY_MAXDIMS] dimensions, both
    with [ValueError]. *)
Definition check_dims (s : list Z) : result (list nat) :=
  if (length s <=? NPY_MAXDIMS) && forallb (fun d => (0 <=? d)%Z) s
  then Ok (map Z.to_nat s)
  else Raise ValueError.

(** [np.ones(shape=s)] *)
Definition np_ones (s : list Z) : result ndarray :=
  let* dims := check_dims s in
  Ok {| shape := dims; data := repeat f_one (shape_size dims) |}.

(** [a * v] and [c * a] with a scalar operand. *)
Definition np_mul_scalar (a : ndarray) (v : F) : ndarray :=
  {| shape := shape a; data := map (fun x => f_mul x v) (data a) |}.

Definition np_scalar_mul (c : F) (a : ndarray) : ndarray :=
  {| shape := shape a; data := map (fun x => f_mul c x) (data a) |}.

(** *** Broadcasting

    Shapes are aligned on their last dimension, the shorter one is
    completed with 1s on the left, and two dimensions are compatible
    when they are equal or one of them is 1. *)

Definition pad_dims (n : nat) (s : list nat) : list nat :=
  repeat 1 (n - length s) ++ s.

Definition broadcast_dim (a b : nat) : option nat :=
  if a =? b then Some a
  else if a =? 1 then Some b
  else if b =? 1 then Some a
  else None.

Fixpoint broadcast_dims (sa sb : list nat) : option (list nat) :=
  match sa, sb with
  | [], [] => Some []
  | a :: sa', b :: sb' =>
      match broadcast_dim a b, broadcast_dims sa' sb' with
      | Some d, Some ds => Some (d :: ds)
      | _, _ => None
      end
  | _, _ => None
  end.

Definition broadcast_shapes (sa sb : list nat) : option (list nat) :=
  let n := Nat.max (length sa) (length sb) in
  broadcast_dims (pad_dims n sa) (pad_dims n sb).

(** The elements of an array of shape [sa] seen at shape [so]: along a
    dimension of [sa] that is 1 where [so] is not, the one slice is
    repeated. *)
Fixpoint broadcast_to (sa so : list nat) (d : list F) : list F :=
  match sa, so with
  | a :: sa', o :: so' =>
      if a =? o
      then flat_map
             (fun i => broadcast_to sa' so'
                         (firstn (shape_size sa')
                            (skipn (i * shape_size sa') d)))
             (seq 0 o)
      else concat (repeat (broadcast_to sa' so' d) o)
  | _, _ => d
  end.

Definition elementwise (f : F -> F -> F) (xs ys : list F) : list F :=
  map (fun p => f (fst p) (snd p)) (combine xs ys).

(** [a - b] *)
Definition np_sub (a b : ndarray) : result ndarray :=
  match broadcast_shapes (shape a) (shape b) with
  | None => Raise ValueError
  | Some so =>
      let n := length so in
      Ok {| shape := so;
            data := elementwise f_sub
                      (broadcast_to (pad_dims n (shape a)) so (data a))
                      (broadcast_to (pad_dims n (shape b)) so (data b)) |}
  end.

(** [np.square(a)] *)
Definition np_square (a : ndarray) : ndarray :=
  {| shape := shape a; data := map (fun x => f_mul x x) (data a) |}.

(** *** Sums

    [a.sum()] adds the elements in memory order with numpy's pairwise
    summation: fewer than 8 elements are accumulated one after the
    other; up to 128 elements are accumulated in 8 interleaved partial
    sums, which are then added two by two, and the elements left over
    are added last; more elements are cut in two parts, the first of a
    length that is a multiple of 8, which are summed each on its own. *)

Definition sum_small (l : list F) : F := fold_left f_add l f_zero.

(** [k] more blocks of 8 elements added to the 8 partial sums [r]. *)
Fixpoint accumulate8 (k : nat) (r l : list F) : list F * list F :=
  match k with
  | O => (r, l)
  | S k' => accumulate8 k' (elementwise f_add r (firstn 8 l)) (skipn 8 l)
  end.

Definition combine8 (r : list F) : F :=
  match r with
  | [r0; r1; r2; r3; r4; r5; r6; r7] =>
      f_add (f_add (f_add r0 r1) (f_add r2 r3))
            (f_add (f_add r4 r5) (f_add r6 r7))
  | _ => f_zero
  end.

Definition sum_block (l : list F) : F :=
  let '(r, rest) :=
    accumulate8 (length l / 8 - 1) (firstn 8 l) (skipn 8 l) in
  fold_left f_add rest (combine8 r).

(** The recursion on the halves; [fuel] bounds its depth and is never
    used up when it is at least the length of the list. *)
Fixpoint pairwise_sum_rec (fuel : nat) (l : list F) : F :=
  let n := length l in
  if n <? 8 then sum_small l
  else if n <=? 128 then sum_block l
  else match fuel with
       | O => sum_block l
       | S fuel' =>
           let n2 := n / 2 - (n / 2) mod 8 in
           f_add (pairwise_sum_rec fuel' (firstn n2 l))
                 (pairwise_sum_rec fuel' (skipn n2 l))
       end.

Definition pairwise_sum (l : list F) : F := pairwise_sum_rec (length l) l.

(** The sum of a flat list of elements as [sum] returns it: the
    pairwise sum is added to the initial value of the reduction, 0. *)
Definition sum_of (l : list F) : F := f_add f_zero (pairwise_sum l).

(** [a.sum()] *)
Definition np_sum (a : ndarray) : F := sum_of (data a).

(** [a == b] holds at every position of two arrays of one shape. *)
Definition np_all_equal (a b : ndarray) : Prop :=
  shape a = shape b /\ Forall2 f_eq (data a) (data b).

End Numpy.

Arguments ndarray F : clear implicits.

(** ** mlp/errors.py *)

Module SumOfSquaredDiffsError.
Section Error.

Context {F : Type} `{Scalar F}.

(** [__call__(self, outputs, targets)]:
    [return 1 / outputs.shape[0] * 0.5 * np.square(outputs - targets).sum()] *)
Definition call (outputs targets : ndarray F) : result F :=
  let* batch_size := tuple_index (shape outputs) 0 in
  let* inv := py_truediv 1 (Z.of_nat batch_size) in
  let* diff := np_sub outputs targets in
  Ok (f_mul (f_mul inv f_half) (np_sum (np_square diff))).

(** [grad(self, outputs, targets)]:
    [return 1 / outputs.shape[0] * (outputs - targets)] *)
Definition grad (outputs targets : ndarray F) : result (ndarray F) :=
  let* batch_size := tuple_index (shape outputs) 0 in
  let* inv := py_truediv 1 (Z.of_nat batch_size) in
  let* diff := np_sub outputs targets in
  Ok (np_scalar_mul inv diff).

End Error.
End SumOfSquaredDiffsError.

(** ** The heap of random generators

    An initialiser keeps a reference to a [numpy.random.RandomState]
    object and every draw advances that object in place.  The objects
    live in a heap; an initialiser holds an address. *)

(** The generator of numpy, as far as the initialisers use it: the
    state a seed gives, and one draw from each distribution, which
    returns the sample and the state after it. *)
Class NumpyRandom (F G : Type) : Type := {
  RandomState_seed : Z -> G;
  rk_uniform : G -> F -> F -> F * G;     (* low, high *)
  rk_normal : G -> F -> F -> F * G       (* loc, scale *)
}.

(** The constant [DEFAULT_SEED] of the package [mlp], which
    [initialisers.py] imports. *)
Class MlpPackage : Type := { DEFAULT_SEED : Z }.

Definition address : Type := nat.

Abbreviation heap G := (gmap address G).

Section Heap.

Context {F G : Type} `{Scalar F} `{NumpyRandom F G}.

(** Computations that read and write the heap and may raise. *)
Definition M (A : Type) : Type := heap G -> result A * heap G.

Definition ret {A : Type} (a : A) : M A := fun h => (Ok a, h).

Definition bindM {A B : Type} (c : M A) (k : A -> M B) : M B :=
  fun h =>
    match c h with
    | (Ok a, h') => k a h'
    | (Raise e, h') => (Raise e, h')
    end.

Definition lift {A : Type} (r : result A) : M A := fun h => (r, h).

(** [np.random.RandomState(seed)]: a new object. *)
Definition new_RandomState (seed : Z) : M address :=
  fun h =>
    let a := fresh (dom h) in
    (Ok a, <[a := RandomState_seed seed]> h).

(** [n] successive draws. *)
Fixpoint draws (step : G -> F * G) (n : nat) (g : G) : list F * G :=
  match n with
  | O => ([], g)
  | S n' =>
      let '(x, g1) := step g in
      let '(xs, g2) := draws step n' g1 in
      (x :: xs, g2)
  end.

(** A sampling method called with [size=shape]: one draw per element,
    the object at [r] is left in the state after the last draw. *)
Definition sample (step : G -> F * G) (r : address) (shape : list Z)
  : M (ndarray F) :=
  fun h =>
    match h !! r with
    | None => (Raise DanglingReference, h)
    | Some g =>
        match check_dims shape with
        | Raise e => (Raise e, h)
        | Ok dims =>
            let '(xs, g') := draws step (shape_size dims) g in
            (Ok {| shape := dims; data := xs |}, <[r := g']> h)
        end
    end.

(** [rng.uniform(low=low, high=high, size=shape)]; numpy first refuses
    a range [high - low] that is not finite. *)
Definition RandomState_uniform (r : address) (low high : F)
    (shape : list Z) : M (ndarray F) :=
  if f_is_finite (f_sub high low)
  then sample (fun g => rk_uniform g low high) r shape
  else lift (Raise OverflowError).

(** [rng.normal(loc=loc, scale=scale, size=shape)]; numpy refuses a
    scale whose sign bit is set. *)
Definition RandomState_normal (r : address) (loc scale : F)
    (shape : list Z) : M (ndarray F) :=
  if f_signbit scale then lift (Raise ValueError)
  else sample (fun g => rk_normal g loc scale) r shape.

End Heap.

Notation "'do' x '<-' c ';' k" := (bindM c (fun x => k))
  (at level 10, x name, c at level 100, k at level 200) : py_scope.

(** ** mlp/initialisers.py *)

(** The argument [rng=None] of the constructors: either nothing or the
    address of a generator. *)
Definition default_rng {F G : Type} `{NumpyRandom F G} `{MlpPackage}
    (rng : option address) : M (G := G) address :=
  match rng with
  | None => new_RandomState DEFAULT_SEED
  | Some r => ret r
  end.

Module ConstantInit.
Section Init.
Context {F : Type} `{Scalar F}.

Record t : Type := { value : F }.

Definition init (v : F) : t := {| value := v |}.

(** [return np.ones(shape=shape) * self.value] *)
Definition call (self : t) (shape : list Z) : result (ndarray F) :=
  let* ones := np_ones shape in
  Ok (np_mul_scalar ones (value self)).
End Init.
Arguments t F : clear implicits.
End ConstantInit.

Module UniformInit.
Section Init.
Context {F G : Type} `{Scalar F} `{NumpyRandom F G} `{MlpPackage}.

Record t : Type := { low : F; high : F; rng : address }.

Definition init (lo hi : F) (r : option address) : M (G := G) t :=
  do r' <- default_rng r ;
  ret {| low := lo; high := hi; rng := r' |}.

(** [return self.rng.uniform(low=self.low, high=self.high, size=shape)] *)
Definition call (self : t) (shape : list Z) : M (G := G) (ndarray F) :=
  RandomState_uniform (rng self) (low self) (high self) shape.
End Init.
Arguments t F : clear implicits.
End UniformInit.

Module NormalInit.
Section Init.
Context {F G : Type} `{Scalar F} `{NumpyRandom F G} `{MlpPackage}.

Record t : Type := { mean : F; std : F; rng : address }.

Definition init (m s : F) (r : option address) : M (G := G) t :=
  do r' <- default_rng r ;
  ret {| mean := m; std := s; rng := r' |}.

(** [return self.rng.normal(loc=self.mean, scale=self.std, size=shape)] *)
Definition call (self : t) (shape : list Z) : M (G := G) (ndarray F) :=
  RandomState_normal (rng self) (mean self) (std self) shape.
End Init.
Arguments t F : clear implicits.
End NormalInit.

Module SqrtInit.
Section Init.
Context {F G : Type} `{Scalar F} `{NumpyRandom F G} `{MlpPackage}.

Record t : Type := { mean : Z; rng : address }.

Definition init (r : option address) : M (G := G) t :=
  do r' <- default_rng r ;
  ret {| mean := 0; rng := r' |}.

(** [return self.rng.normal(loc=self.mean, scale=1/np.sqrt(shape[1]),
                            size=shape)] *)
Definition call (self : t) (shape : list Z) : M (G := G) (ndarray F) :=
  do s1 <- lift (tuple_index shape 1) ;
  RandomState_normal (rng self)
    (f_of_int (mean self))
    (f_div (f_of_int 1) (f_sqrt (f_of_int s1)))
    shape.
End Init.
End SqrtInit.

Module XavierInit.
Section Init.
Context {F G : Type} `{Scalar F} `{NumpyRandom F G} `{MlpPackage}.

Record t : Type := { rng : address }.

Definition init (r : option address) : M (G := G) t :=
  do r' <- default_rng r ;
  ret {| rng := r' |}.

(** [np.sqrt(6 / (shape[0] + shape[1]))] *)
Definition bound (shape : list Z) : result F :=
  let* s0 := tuple_index shape 0 in
  let* s1 := tuple_index shape 1 in
  let* q := py_truediv 6 (s0 + s1) in
  Ok (f_sqrt q).

(** [return self.rng.uniform(low=-np.sqrt(6 / (shape[0] + shape[1])),
                             high=np.sqrt(6 / (shape[0] + shape[1])),
                             size=shape)] *)
Definition call (self : t) (shape : list Z) : M (G := G) (ndarray F) :=
  do lo <- lift (let* b := bound shape in Ok (f_neg b)) ;
  do hi <- lift (bound shape) ;
  RandomState_uniform (rng self) lo hi shape.
End Init.
End XavierInit.

Module XavierInitNormal.
Section Init.
Context {F G : Type} `{Scalar F} `{NumpyRandom F G} `{MlpPackage}.

Record t : Type := { mean : Z; rng : address }.

Definition init (r : option address) : M (G := G) t :=
  do r' <- default_rng r ;
  ret {| mean := 0; rng := r' |}.

(** [return self.rng.normal(loc=self.mean,
                            scale=np.sqrt(2 / (shape[0] + shape[1])),
                            size=shape)] *)
Definition call (self : t) (shape : list Z) : M (G := G) (ndarray F) :=
  do s0 <- lift (tuple_index shape 0) ;
  do s1 <- lift (tuple_index shape 1) ;
  do q <- lift (py_truediv 2 (s0 + s1)) ;
  RandomState_normal (rng self) (f_of_int (mean self)) (f_sqrt q) shape.
End Init.
End XavierInitNormal.

Module KaimingInit.
Section Init.
Context {F G : Type} `{Scalar F} `{NumpyRandom F G} `{MlpPackage}.

Record t : Type := { mean : Z; rng : address }.

Definition init (r : option address) : M (G := G) t :=
  do r' <- default_rng r ;
  ret {| mean := 0; rng := r' |}.

(** [return self.rng.normal(loc=self.mean, scale=np.sqrt(2 / shape[1]),
                            size=shape)] *)
Definition call (self : t) (shape : list Z) : M (G := G) (ndarray F) :=
  do s1 <- lift (tuple_index shape 1) ;
  do q <- lift (py_truediv 2 s1) ;
  RandomState_normal (rng self) (f_of_int (mean self)) (f_sqrt q) shape.
End Init.
End KaimingInit.

(** ** The formulas of the documentation *)

Section Formulas.

Context {F : Type} `{Scalar F}.

(** [a[i, j]] in a two-dimensional array. *)
Definition get2 (a : ndarray F) (i j : nat) : F :=
  match shape a with
  | [_; d] => nth (i * d + j) (data a) f_zero
  | _ => f_zero
  end.

(** The positions [(i, j)] of a [b] by [d] array. *)
Definition positions (b d : nat) : list (nat * nat) :=
  list_prod (seq 0 b) (seq 0 d).

(** The sum of a list of elements, one after the other. *)
Definition sum_list (xs : list F) : F := fold_left f_add xs f_zero.

(** [v] is the elements of [l] added up: each element once, in some
    order and with some grouping of the additions, with 0 where there
    is nothing to add. *)
Inductive is_sum : list F -> F -> Prop :=
| is_sum_nil : is_sum [] f_zero
| is_sum_one (x : F) : is_sum [x] x
| is_sum_add (l1 l2 : list F) (v1 v2 : F) :
    is_sum l1 v1 -> is_sum l2 v2 -> is_sum (l1 ++ l2) (f_add v1 v2)
| is_sum_perm (l l' : list F) (v : F) :
    Permutation l l' -> is_sum l v -> is_sum l' v.

Definition squared_diff (outputs targets : ndarray F) (ij : nat * nat) : F :=
  let x := f_sub (get2 outputs (fst ij) (snd ij))
                 (get2 targets (fst ij) (snd ij)) in
  f_mul x x.

(** [(1 / batch_size) * 0.5 * sum over all elements of
    (outputs - targets)^2], the squared differences at all the positions
    being added up by [sum]. *)
Definition half_mean_squared_diffs (sum : list F -> F)
    (outputs targets : ndarray F) (batch_size output_dim : nat) : F :=
  f_mul (f_mul (f_truediv 1 (Z.of_nat batch_size)) f_half)
        (sum (map (squared_diff outputs targets)
                  (positions batch_size output_dim))).

(** [(1 / batch_size) * (outputs - targets)] at position [(i, j)]. *)
Definition mean_diff (outputs targets : ndarray F) (batch_size : nat)
    (i j : nat) : F :=
  f_mul (f_truediv 1 (Z.of_nat batch_size))
        (f_sub (get2 outputs i j) (get2 targets i j)).

(** [a] with the element at [(i, j)] replaced by [x]. *)
Definition set2 (a : ndarray F) (i j : nat) (x : F) : ndarray F :=
  match shape a with
  | [_; d] => {| shape := shape a;
                 data := <[i * d + j := x]> (data a) |}
  | _ => a
  end.

Definition value_or {A : Type} (default : A) (r : result A) : A :=
  match r with
  | Ok a => a
  | Raise _ => default
  end.

(** [a.reshape(a.shape[0], -1)]: the same elements, with the dimensions
    after the first merged into one. *)
Definition flatten_rows (a : ndarray F) : ndarray F :=
  match shape a with
  | b :: dims => {| shape := [b; shape_size dims]; data := data a |}
  | [] => a
  end.

End Formulas.

(** The arrays of the scenario of the documentation:
    [outputs = [[1.0, 2.0]]], [targets = [[0.0, 0.0]]]. *)
Definition scenario_outputs : ndarray B64.t :=
  {| shape := [1; 2]; data := [B64.lit 1 0; B64.lit 2 0] |}.

Definition scenario_targets : ndarray B64.t :=
  {| shape := [1; 2]; data := [B64.lit 0 0; B64.lit 0 0] |}.

(** Two arrays whose shapes differ and broadcast:
    [[[1.0, 2.0], [3.0, 4.0]]] of shape [(2, 2)] and [[[1.0, 2.0]]] of
    shape [(1, 2)]. *)
Definition square_outputs : ndarray B64.t :=
  {| shape := [2; 2];
     data := [B64.lit 1 0; B64.lit 2 0; B64.lit 3 0; B64.lit 4 0] |}.

Definition row_targets : ndarray B64.t :=
  {| shape := [1; 2]; data := [B64.lit 1 0; B64.lit 2 0] |}.

(** A one-element batch whose output is the double [2^-600] and whose
    target is [0.0]. *)
Definition tiny_outputs : ndarray B64.t :=
  {| shape := [1; 1]; data := [B64.lit 1 (-600)] |}.

Definition zero_targets : ndarray B64.t :=
  {| shape := [1; 1]; data := [B64.lit 0 0] |}.

(** A double that is a number and is not negative. *)
Definition nonneg (x : B64.t) : Prop :=
  B64.is_nan x = false /\ B64.signbit x = false.

(** What numpy documents of [uniform]: a draw is not below [low] and not
    above [high] (rounding can give [high] itself). *)
Definition uniform_within_bounds {F G : Type} `{Scalar F} `{NumpyRandom F G}
  : Prop :=
  forall (g : G) (low high : F),
    f_le low high ->
    f_le low (fst (rk_uniform g low high))
    /\ f_le (fst (rk_uniform g low high)) high.

(** ** A generator to run the initialisers on

    The state is a counter.  A uniform draw returns one of the two
    bounds and a normal draw returns [loc] or [loc + scale], according to
    the parity of the counter; every draw advances the counter. *)
Module Counter.

#[global] Instance random : NumpyRandom B64.t Z := {
  RandomState_seed := fun seed => seed;
  rk_uniform := fun g low high =>
                  (if Z.even g then low else high, (g + 1)%Z);
  rk_normal := fun g loc scale =>
                 (if Z.even g then loc else B64.add loc scale, (g + 1)%Z)
}.

#[global] Instance package : MlpPackage := { DEFAULT_SEED := 123456 }.

End Counter.

(** Two [UniformInit(low=0.0, high=1.0)] constructed one after the other
    in an empty heap, and the heap after each construction. *)
Definition first_uniform : UniformInit.t B64.t :=
  {| UniformInit.low := B64.lit 0 0;
     UniformInit.high := B64.lit 1 0;
     UniformInit.rng := 0 |}.

Definition second_uniform : UniformInit.t B64.t :=
  {| UniformInit.low := B64.lit 0 0;
     UniformInit.high := B64.lit 1 0;
     UniformInit.rng := 1 |}.

Definition heap_of_one : heap Z := {[ 0 := 123456%Z ]}.

Definition heap_of_two : heap Z := <[ 1 := 123456%Z ]> heap_of_one.

(** ** Programs that call two initialisers

    A schedule says, call after call, which of two initialisers is
    called and with which shape.  Running it collects what each call
    returned or raised. *)

Inductive who : Type := First | Second.

Definition who_eqb (a b : who) : bool :=
  match a, b with
  | First, First | Second, Second => true
  | _, _ => false
  end.

Section Schedules.

Context {F G : Type} `{Scalar F} `{NumpyRandom F G}.

Fixpoint run_calls (call_first call_second : list Z -> M (G := G) (ndarray F))
    (schedule : list (who * list Z)) (h : heap G)
  : list (who * result (ndarray F)) * heap G :=
  match schedule with
  | [] => ([], h)
  | (w, shape) :: rest =>
      let '(r, h1) :=
        match w with
        | First => call_first shape h
        | Second => call_second shape h
        end in
      let '(rs, h2) := run_calls call_first call_second rest h1 in
      ((w, r) :: rs, h2)
  end.

Definition requests_of (w : who) (schedule : list (who * list Z))
  : list (list Z) :=
  map snd (List.filter (fun c => who_eqb (fst c) w) schedule).

Definition results_of (w : who)
    (out : list (who * result (ndarray F))) : list (result (ndarray F)) :=
  map snd (List.filter (fun c => who_eqb (fst c) w) out).

(** What a sampling method does to the generator it is called on. *)
Definition sample_step (step : G -> F * G) (shape : list Z) (g : G)
  : result (ndarray F) * G :=
  match check_dims shape with
  | Raise e => (Raise e, g)
  | Ok dims =>
      let '(xs, g') := draws step (shape_size dims) g in
      (Ok {| shape := dims; data := xs |}, g')
  end.

(** A call that reads the generator at [r], returns [fst (f g)] and
    leaves the generator in state [snd (f g)], whatever else the heap
    holds. *)
Definition acts_on (r : address) (f : G -> result (ndarray F) * G)
    (c : M (G := G) (ndarray F)) : Prop :=
  forall (h : heap G) (g : G),
    h !! r = Some g -> c h = (fst (f g), <[r := snd (f g)]> h).

(** [uniform] first checks the range. *)
Definition uniform_step (low high : F) (shape : list Z) (g : G)
  : result (ndarray F) * G :=
  if f_is_finite (f_sub high low)
  then sample_step (fun g0 => rk_uniform g0 low high) shape g
  else (Raise OverflowError, g).

(** [normal] first checks the scale. *)
Definition normal_step (loc scale : F) (shape : list Z) (g : G)
  : result (ndarray F) * G :=
  if f_signbit scale then (Raise ValueError, g)
  else sample_step (fun g0 => rk_normal g0 loc scale) shape g.

(** An argument that raises before the method is called. *)
Definition after {A : Type} (r : result A)
    (f : A -> G -> result (ndarray F) * G) (g : G)
  : result (ndarray F) * G :=
  match r with
  | Ok x => f x g
  | Raise e => (Raise e, g)
  end.

(** The successive results of a generator used by nobody else. *)
Fixpoint alone (f : list Z -> G -> result (ndarray F) * G)
    (requests : list (list Z)) (g : G) : list (result (ndarray F)) :=
  match requests with
  | [] => []
  | shape :: rest => fst (f shape g) :: alone f rest (snd (f shape g))
  end.

(** A kind of initialiser is reproducible when two of its objects,
    constructed one after the other, return the same results for the
    same requests, however the calls to the two are interleaved. *)
Definition reproducible {T : Type} (init : M (G := G) T)
    (call : T -> list Z -> M (G := G) (ndarray F)) : Prop :=
  forall (h0 h1 h2 : heap G) (a b : T) (schedule : list (who * list Z)),
    init h0 = (Ok a, h1) ->
    init h1 = (Ok b, h2) ->
    requests_of First schedule = requests_of Second schedule ->
    results_of First (fst (run_calls (call a) (call b) schedule h2))
    = results_of Second (fst (run_calls (call a) (call b) schedule h2)).

End Schedules.

(** ** More arrays to run the code on *)

(** One row of eight outputs, [[[2^27, 1, 1, 1, 1, 1, 1, 1]]], and eight
    targets [0.0]. *)
Definition eight_outputs : ndarray B64.t :=
  {| shape := [1; 8];
     data := B64.lit 1 27 :: repeat (B64.lit 1 0) 7 |}.

Definition eight_targets : ndarray B64.t :=
  {| shape := [1; 8]; data := repeat (B64.lit 0 0) 8 |}.

(** An empty batch of three-element outputs, shape [(0, 3)]. *)
Definition empty_batch : ndarray B64.t := {| shape := [0; 3]; data := [] |}.

(** A batch in three dimensions, shape [(2, 1, 2)]. *)
Definition cube_outputs : ndarray B64.t :=
  {| shape := [2; 1; 2];
     data := [B64.lit 1 0; B64.lit 2 0; B64.lit 3 0; B64.lit 4 0] |}.

Definition cube_targets : ndarray B64.t :=
  {| shape := [2; 1; 2];
     data := [B64.lit 1 0; B64.lit 0 0; B64.lit 3 0; B64.lit 2 0] |}.

(** The sum of the squares of the element-wise difference of two flat
    lists of elements. *)
Definition sum_squared_diffs {F : Type} `{Scalar F} (xs ys : list F) : F :=
  sum_of (map (fun x => f_mul x x) (elementwise f_sub xs ys)).

(** An array of shape [(2, 2)] one of whose elements is NaN. *)
Definition nan_outputs : ndarray B64.t :=
  {| shape := [2; 2];
     data := [B64.lit 1 0; S754_nan; B64.lit 3 0; B64.lit 4 0] |}.

(** [np.tile(a, (b, 1))] for an array [a] of shape [(1, d)]: its one row,
    [b] times. *)
Definition tile_rows {F : Type} (a : ndarray F) (b d : nat) : ndarray F :=
  {| shape := [b; d]; data := concat (repeat (data a) b) |}.

(** What a constructor with the argument [rng] does to the heap: the
    generators that are there stay as they are; a generator that is
    given is kept, without a new object and without seeding it again; a
    missing one is a new object in the state of [DEFAULT_SEED]. *)
Definition constructs_generator {F G T : Type} `{NumpyRandom F G}
    `{MlpPackage} (init : option address -> M (G := G) T)
    (rng_of : T -> address) : Prop :=
  forall (rng : option address) (h : heap G),
  exists (self : T) (h' : heap G),
    init rng h = (Ok self, h')
    /\ (forall (r0 : address) (g : G),
           h !! r0 = Some g -> h' !! r0 = Some g)
    /\ match rng with
       | Some r0 => rng_of self = r0 /\ h' = h
       | None =>
           h !! rng_of self = None
           /\ h' !! rng_of self = Some (RandomState_seed DEFAULT_SEED)
       end.

(** A [UniformInit(low=2.0, high=5.0)] on the generator at address 0. *)
Definition uniform_2_5 : UniformInit.t B64.t :=
  {| UniformInit.low := B64.lit 2 0;
     UniformInit.high := B64.lit 5 0;
     UniformInit.rng := 0 |}.

(** A [UniformInit(low=-2^1023, high=2^1023)] on the generator at
    address 0: the two bounds are doubles, their difference is not. *)
Definition uniform_huge : UniformInit.t B64.t :=
  {| UniformInit.low := B64.neg (B64.lit 1 1023);
     UniformInit.high := B64.lit 1 1023;
     UniformInit.rng := 0 |}.

(** A [UniformInit(low=nan, high=1.0)] on the generator at address 0. *)
Definition uniform_nan_1 : UniformInit.t B64.t :=
  {| UniformInit.low := S754_nan;
     UniformInit.high := B64.lit 1 0;
     UniformInit.rng := 0 |}.

(** * Properties *)

(** ** Lists and broadcasting *)

Section NumpyFacts.

Context {F : Type} `{Scalar F}.

Lemma pad_dims_full (s : list nat) : pad_dims (length s) s = s.
Proof. unfold pad_dims. now rewrite Nat.sub_diag. Qed.

Lemma broadcast_dim_refl (a : nat) : broadcast_dim a a = Some a.
Proof. unfold broadcast_dim. now rewrite Nat.eqb_refl. Qed.

Lemma broadcast_dims_refl (s : list nat) : broadcast_dims s s = Some s.
Proof.
  induction s as [|a s IH]; simpl; [reflexivity|].
  now rewrite broadcast_dim_refl, IH.
Qed.

Lemma broadcast_shapes_refl (s : list nat) : broadcast_shapes s s = Some s.
Proof.
  unfold broadcast_shapes. rewrite Nat.max_id, pad_dims_full.
  apply broadcast_dims_refl.
Qed.

(** Cutting a list in [a] chunks of [c] elements and gluing the chunks
    back gives the list. *)
Lemma chunks_glue (g : list F -> list F) (c a : nat) :
  (forall l, length l = c -> g l = l) ->
  forall (k : nat) (d : list F),
    length d = (k + a) * c ->
    flat_map (fun i => g (firstn c (skipn (i * c) d))) (seq k a)
    = skipn (k * c) d.
Proof.
  intros Hg. induction a as [|a IH]; intros k d Hlen; simpl.
  - rewrite Nat.add_0_r in Hlen. symmetry. apply skipn_all2. lia.
  - rewrite IH by (rewrite Hlen; lia).
    rewrite Hg.
    + rewrite <- (firstn_skipn c (skipn (k * c) d)) at 2.
      f_equal. rewrite skipn_skipn. f_equal; lia.
    + rewrite length_firstn, length_skipn. nia.
Qed.

Lemma broadcast_to_same (s : list nat) :
  forall d : list F, length d = shape_size s -> broadcast_to s s d = d.
Proof.
  induction s as [|a s IH]; intros d Hlen; simpl; [reflexivity|].
  rewrite Nat.eqb_refl.
  rewrite (chunks_glue (broadcast_to s s) (c := shape_size s) a IH 0 d).
  - reflexivity.
  - simpl in Hlen. lia.
Qed.

Lemma np_sub_same_shape (a b : ndarray F) :
  shape a = shape b -> well_formed a -> well_formed b ->
  np_sub a b
  = Ok {| shape := shape a;
          data := elementwise f_sub (data a) (data b) |}.
Proof.
  unfold np_sub, well_formed. intros Hs Ha Hb.
  rewrite <- Hs, broadcast_shapes_refl, pad_dims_full.
  rewrite !broadcast_to_same; congruence.
Qed.

Lemma length_elementwise (f : F -> F -> F) (xs ys : list F) :
  length (elementwise f xs ys) = Nat.min (length xs) (length ys).
Proof. unfold elementwise. now rewrite length_map, length_combine. Qed.

Lemma nth_elementwise (f : F -> F -> F) (xs ys : list F) (k : nat) (z : F) :
  k < length xs -> k < length ys ->
  nth k (elementwise f xs ys) z = f (nth k xs z) (nth k ys z).
Proof.
  unfold elementwise. revert ys k.
  induction xs as [|x xs IH]; intros [|y ys] [|k] Hx Hy; simpl in *;
    try lia; [reflexivity|].
  apply IH; lia.
Qed.

(** The flat positions of a [b] by [d] array, row after row. *)
Lemma list_prod_app_l {A B : Type} (l1 l2 : list A) (l' : list B) :
  list_prod (l1 ++ l2) l' = list_prod l1 l' ++ list_prod l2 l'.
Proof.
  induction l1 as [|x l1 IH]; simpl; [reflexivity|].
  now rewrite IH, app_assoc.
Qed.

Lemma map_add_seq (n d : nat) :
  forall k, map (fun x => n + x) (seq k d) = seq (n + k) d.
Proof.
  induction d as [|d IHd]; intros k; simpl; [reflexivity|].
  f_equal. rewrite IHd. f_equal. lia.
Qed.

Lemma flat_positions (b d : nat) :
  map (fun ij : nat * nat => fst ij * d + snd ij)
      (list_prod (seq 0 b) (seq 0 d))
  = seq 0 (b * d).
Proof.
  induction b as [|b IH]; [reflexivity|].
  rewrite seq_S, list_prod_app_l, map_app, IH. simpl.
  rewrite app_nil_r, map_map. simpl.
  replace (d + b * d) with (b * d + d) by lia.
  rewrite seq_app. f_equal. simpl.
  rewrite map_add_seq. f_equal. lia.
Qed.

End NumpyFacts.

(** ** Sums *)

Section SumFacts.

Context {F : Type} `{Scalar F}.

Lemma is_sum_fold (rest : list F) :
  forall (l0 : list F) (v : F),
    is_sum l0 v -> is_sum (l0 ++ rest) (fold_left f_add rest v).
Proof.
  induction rest as [|x rest IH]; intros l0 v Hv; cbn [fold_left].
  - now rewrite app_nil_r.
  - replace (l0 ++ x :: rest) with ((l0 ++ [x]) ++ rest)
      by (now rewrite <- app_assoc).
    apply IH. apply is_sum_add; [exact Hv|apply is_sum_one].
Qed.

Lemma is_sum_small (l : list F) : is_sum l (sum_small l).
Proof. exact (is_sum_fold l is_sum_nil). Qed.

(** One more block added to the partial sums: each partial sum gets one
    more element. *)
Lemma is_sum_columns_step (cols : list (list F)) (r blk : list F) :
  Forall2 is_sum cols r -> length blk = length r ->
  exists cols' : list (list F),
    Forall2 is_sum cols' (elementwise f_add r blk)
    /\ Permutation (concat cols ++ blk) (concat cols').
Proof.
  intros Hcols. revert blk.
  induction Hcols as [|c x cols r Hc Hcols IH]; intros blk Hlen.
  - destruct blk; [|discriminate]. exists []. split; constructor.
  - destruct blk as [|b blk]; [discriminate|]. injection Hlen as Hlen.
    destruct (IH blk Hlen) as (cols' & Hsum & Hperm).
    exists ((c ++ [b]) :: cols'). split.
    + unfold elementwise in *. cbn [combine map fst snd]. constructor.
      * apply is_sum_add; [exact Hc|apply is_sum_one].
      * exact Hsum.
    + cbn [concat]. rewrite <- !app_assoc. apply Permutation_app_head.
      cbn [app]. rewrite <- Hperm. symmetry. apply Permutation_middle.
Qed.

Lemma is_sum_accumulate8 (k : nat) :
  forall (cols : list (list F)) (r l : list F),
    Forall2 is_sum cols r -> length r = 8 -> 8 * k <= length l ->
    exists cols' : list (list F),
      Forall2 is_sum cols' (fst (accumulate8 k r l))
      /\ length (fst (accumulate8 k r l)) = 8
      /\ Permutation (concat cols ++ l)
           (concat cols' ++ snd (accumulate8 k r l)).
Proof.
  induction k as [|k IH]; intros cols r l Hcols Hr Hl; cbn [accumulate8].
  - exists cols. cbn [fst snd]. auto.
  - assert (Hblk : length (firstn 8 l) = length r)
      by (rewrite length_firstn; lia).
    destruct (@is_sum_columns_step cols r (firstn 8 l) Hcols Hblk)
      as (cols1 & Hsum1 & Hperm1).
    destruct (IH cols1 (elementwise f_add r (firstn 8 l)) (skipn 8 l) Hsum1)
      as (cols' & Hsum & Hlen & Hperm).
    + rewrite length_elementwise, length_firstn. lia.
    + rewrite length_skipn. lia.
    + exists cols'. split; [exact Hsum|]. split; [exact Hlen|].
      rewrite <- Hperm, <- Hperm1, <- app_assoc.
      now rewrite firstn_skipn.
Qed.

Lemma is_sum_combine8 (cols : list (list F)) (r : list F) :
  Forall2 is_sum cols r -> length r = 8 ->
  is_sum (concat cols) (combine8 r).
Proof.
  intros Hcols Hr.
  destruct r as [|r0 [|r1 [|r2 [|r3 [|r4 [|r5 [|r6 [|r7 [|? ?]]]]]]]]];
    try discriminate.
  repeat match goal with
         | Hc : Forall2 is_sum _ (_ :: _) |- _ =>
             inversion Hc; subst; clear Hc
         | Hc : Forall2 is_sum _ [] |- _ => inversion Hc; subst; clear Hc
         end.
  cbn [concat combine8]. rewrite app_nil_r.
  match goal with
  | |- is_sum (?c0 ++ ?c1 ++ ?c2 ++ ?c3 ++ ?c4 ++ ?c5 ++ ?c6 ++ ?c7) _ =>
      replace (c0 ++ c1 ++ c2 ++ c3 ++ c4 ++ c5 ++ c6 ++ c7)
        with (((c0 ++ c1) ++ (c2 ++ c3)) ++ ((c4 ++ c5) ++ (c6 ++ c7)))
        by (repeat rewrite <- app_assoc; reflexivity)
  end.
  repeat (apply is_sum_add; try assumption).
Qed.

Lemma is_sum_singletons (xs : list F) :
  Forall2 is_sum (map (fun x => [x]) xs) xs.
Proof.
  induction xs as [|x xs IH]; cbn [map]; constructor;
    [apply is_sum_one|exact IH].
Qed.

Lemma concat_singletons (xs : list F) :
  concat (map (fun x => [x]) xs) = xs.
Proof.
  induction xs as [|x xs IH]; [reflexivity|].
  cbn [map concat app]. f_equal. exact IH.
Qed.

Lemma is_sum_block (l : list F) : 8 <= length l -> is_sum l (sum_block l).
Proof.
  intros Hl. unfold sum_block.
  pose proof (is_sum_singletons (firstn 8 l)) as Hinit.
  pose proof (concat_singletons (firstn 8 l)) as Hconcat.
  destruct (@is_sum_accumulate8 (length l / 8 - 1) _ (firstn 8 l) (skipn 8 l)
              Hinit)
    as (cols & Hsum & Hlen & Hperm).
  - rewrite length_firstn. lia.
  - rewrite length_skipn.
    pose proof (Nat.div_mod_eq (length l) 8). lia.
  - destruct (accumulate8 (length l / 8 - 1) (firstn 8 l) (skipn 8 l))
      as [r rest]. cbn [fst snd] in *.
    apply is_sum_perm with (l := concat cols ++ rest).
    + rewrite <- Hperm, Hconcat. now rewrite firstn_skipn.
    + apply is_sum_fold. now apply is_sum_combine8.
Qed.

Lemma is_sum_pairwise_rec (fuel : nat) :
  forall l : list F, is_sum l (pairwise_sum_rec fuel l).
Proof.
  induction fuel as [|fuel IH]; intros l; cbn [pairwise_sum_rec];
    destruct (Nat.ltb_spec (length l) 8) as [Hs|Hs];
    try apply is_sum_small;
    destruct (Nat.leb_spec (length l) 128) as [Hb|Hb];
    try (now apply is_sum_block).
  rewrite <- (firstn_skipn (length l / 2 - (length l / 2) mod 8) l) at 1.
  apply is_sum_add; apply IH.
Qed.

(** What [sum] returns is the elements added up. *)
Lemma is_sum_sum_of (l : list F) : is_sum l (sum_of l).
Proof.
  unfold sum_of, pairwise_sum.
  change l with ([] ++ l) at 1.
  apply is_sum_add; [apply is_sum_nil|apply is_sum_pairwise_rec].
Qed.

(** The recursion never runs out of fuel. *)
Lemma pairwise_sum_rec_fuel (fuel1 : nat) :
  forall (fuel2 : nat) (l : list F),
    length l <= fuel1 -> length l <= fuel2 ->
    pairwise_sum_rec fuel1 l = pairwise_sum_rec fuel2 l.
Proof.
  induction fuel1 as [|fuel1 IH]; intros fuel2 l H1 H2.
  - destruct l; [|cbn in H1; lia]. now destruct fuel2.
  - destruct fuel2 as [|fuel2].
    + destruct l; [reflexivity|cbn in H2; lia].
    + cbn [pairwise_sum_rec].
      destruct (Nat.ltb_spec (length l) 8) as [Hs|Hs]; [reflexivity|].
      destruct (Nat.leb_spec (length l) 128) as [Hb|Hb]; [reflexivity|].
      pose proof (Nat.div_mod_eq (length l) 2) as Hd2.
      pose proof (Nat.mod_upper_bound (length l) 2 ltac:(lia)) as Hm2.
      pose proof (Nat.mod_upper_bound (length l / 2) 8 ltac:(lia)) as Hm8.
      f_equal; apply IH; rewrite ?length_firstn, ?length_skipn; lia.
Qed.

(** Two properties of sums that do not depend on the order of the
    additions. *)
Lemma is_sum_closed (P : F -> Prop) :
  P f_zero -> (forall x y, P x -> P y -> P (f_add x y)) ->
  forall (l : list F) (v : F),
    is_sum l v -> List.Forall P l -> P v.
Proof.
  intros H0 Hadd l v Hsum.
  induction Hsum as [|x|l1 l2 v1 v2 _ IH1 _ IH2|l l' v Hperm _ IH];
    intros Hall.
  - exact H0.
  - now inversion Hall.
  - apply Forall_app in Hall. destruct Hall as [Hl1 Hl2]. auto.
  - apply IH. rewrite List.Forall_forall in *. intros x Hx.
    apply Hall. now apply (Permutation_in x Hperm).
Qed.

Lemma is_sum_absorbing (Q : F -> Prop) :
  (forall x y, Q x \/ Q y -> Q (f_add x y)) ->
  forall (l : list F) (v : F),
    is_sum l v -> (exists x, In x l /\ Q x) -> Q v.
Proof.
  intros Hadd l v Hsum.
  induction Hsum as [|x|l1 l2 v1 v2 _ IH1 _ IH2|l l' v Hperm _ IH];
    intros (z & Hin & Hz).
  - contradiction.
  - destruct Hin as [<-|[]]. exact Hz.
  - apply Hadd. apply in_app_or in Hin. destruct Hin as [Hin|Hin];
      [left; apply IH1|right; apply IH2]; eauto.
  - apply IH. exists z. split; [|exact Hz].
    now apply (Permutation_in z (Permutation_sym Hperm)).
Qed.

End SumFacts.

(** *** Sums of real numbers *)

Section RealSums.

Open Scope R_scope.

Lemma fold_left_Rplus_acc (l : list R) (a : R) :
  fold_left Rplus l a = a + fold_left Rplus l 0.
Proof.
  revert a. induction l as [|x l IH]; intros a; simpl; [lra|].
  rewrite (IH (a + x)), (IH (0 + x)). lra.
Qed.

Lemma sum_list_cons (x : R) (l : list R) :
  sum_list (x :: l) = x + sum_list l.
Proof.
  unfold sum_list. simpl. rewrite fold_left_Rplus_acc. lra.
Qed.

Lemma sum_squares_nonneg (l : list R) :
  0 <= sum_list (map (fun x => x * x) l).
Proof.
  induction l as [|x l IH]; simpl.
  - unfold sum_list. simpl. lra.
  - rewrite sum_list_cons. nra.
Qed.

Lemma sum_squares_zero (l : list R) :
  sum_list (map (fun x => x * x) l) = 0 <-> Forall (fun x => x = 0) l.
Proof.
  induction l as [|x l IH]; simpl.
  - unfold sum_list. simpl. split; [constructor | reflexivity].
  - rewrite sum_list_cons. pose proof (sum_squares_nonneg l) as Hl.
    split.
    + intros Hs. constructor; [nra|]. apply IH. nra.
    + intros Hall. inversion Hall as [|? ? Hx Hl']; subst.
      apply IH in Hl'. nra.
Qed.

(** Replacing one output changes one term of the sum. *)
Lemma sum_squares_insert (lo lt : list R) (k : nat) (x : R) :
  (k < length lo)%nat -> (k < length lt)%nat ->
  sum_list (map (fun y => y * y) (elementwise Rminus (<[k := x]> lo) lt))
  = sum_list (map (fun y => y * y) (elementwise Rminus lo lt))
    - (nth k lo 0 - nth k lt 0) * (nth k lo 0 - nth k lt 0)
    + (x - nth k lt 0) * (x - nth k lt 0).
Proof.
  revert lt k. unfold elementwise.
  induction lo as [|o lo IH]; intros [|t lt] [|k] Ho Ht; simpl in *;
    try lia.
  - rewrite !sum_list_cons. lra.
  - rewrite !sum_list_cons, IH by lia. lra.
Qed.

(** Over the reals the order and the grouping of the additions do not
    matter. *)
Lemma sum_list_app (l1 l2 : list R) :
  sum_list (l1 ++ l2) = sum_list l1 + sum_list l2.
Proof.
  induction l1 as [|x l1 IH]; cbn [app].
  - unfold sum_list at 2. cbn. lra.
  - rewrite !sum_list_cons, IH. lra.
Qed.

Lemma sum_list_permutation (l l' : list R) :
  Permutation l l' -> sum_list l = sum_list l'.
Proof.
  induction 1 as [|x l l' _ IH|x y l|l l' l'' _ IH1 _ IH2].
  - reflexivity.
  - rewrite !sum_list_cons, IH. reflexivity.
  - rewrite !sum_list_cons. lra.
  - now rewrite IH1.
Qed.

Lemma is_sum_exact (l : list R) (v : R) : is_sum l v -> v = sum_list l.
Proof.
  induction 1 as [|x|l1 l2 v1 v2 _ IH1 _ IH2|l l' v Hperm _ IH].
  - reflexivity.
  - unfold sum_list. cbn. lra.
  - rewrite sum_list_app, IH1, IH2. reflexivity.
  - rewrite IH. now apply sum_list_permutation.
Qed.

Lemma sum_of_exact (l : list R) : sum_of l = sum_list l.
Proof. apply is_sum_exact, is_sum_sum_of. Qed.

End RealSums.

(** ** SumOfSquaredDiffsError *)

Section ErrorFacts.

Context {F : Type} `{Scalar F}.

Lemma map_nth_positions (l : list F) (b d : nat) (g : F -> F) :
  length l = b * d ->
  map (fun ij : nat * nat => g (nth (fst ij * d + snd ij) l f_zero))
      (positions b d)
  = map g l.
Proof.
  intros Hlen. unfold positions.
  rewrite <- (map_map (fun ij : nat * nat => fst ij * d + snd ij)
                      (fun k => g (nth k l f_zero))).
  rewrite flat_positions, <- Hlen.
  rewrite <- (map_map (fun k => nth k l f_zero) g).
  f_equal. apply nth_ext with (d := f_zero) (d' := f_zero).
  - now rewrite length_map, length_seq.
  - intros n Hn. rewrite length_map, length_seq in Hn.
    rewrite (nth_indep _ _ (nth 0 l f_zero)) by (now rewrite length_map, length_seq).
    rewrite (map_nth (fun k => nth k l f_zero)), seq_nth by assumption.
    reflexivity.
Qed.

(** The squared differences over all positions are the squares of the
    element-wise difference of the two flat lists. *)
Lemma squared_diffs_positions (outputs targets : ndarray F) (b d : nat) :
  shape outputs = [b; d] -> shape targets = [b; d] ->
  well_formed outputs -> well_formed targets ->
  map (squared_diff outputs targets) (positions b d)
  = map (fun x => f_mul x x)
        (elementwise f_sub (data outputs) (data targets)).
Proof.
  unfold well_formed. intros Ho Ht Wo Wt.
  rewrite Ho in Wo. rewrite Ht in Wt. simpl in Wo, Wt.
  rewrite Nat.mul_1_r in Wo, Wt.
  rewrite <- (map_nth_positions
                (elementwise f_sub (data outputs) (data targets)) b d
                (fun x => f_mul x x))
    by (rewrite length_elementwise; lia).
  apply map_ext_in. intros [i j] Hin.
  apply in_prod_iff in Hin. destruct Hin as [Hi Hj].
  apply in_seq in Hi. apply in_seq in Hj.
  unfold squared_diff, get2. rewrite Ho, Ht. simpl.
  rewrite nth_elementwise by nia. reflexivity.
Qed.

Lemma call_same_shape (outputs targets : ndarray F) (b d : nat) :
  shape outputs = [b; d] -> shape targets = [b; d] ->
  well_formed outputs -> well_formed targets -> 1 <= b ->
  SumOfSquaredDiffsError.call outputs targets
  = Ok (half_mean_squared_diffs sum_of outputs targets b d).
Proof.
  intros Ho Ht Wo Wt Hb.
  unfold SumOfSquaredDiffsError.call. rewrite Ho.
  cbn [tuple_index nth_error bind]. unfold py_truediv.
  destruct (Z.eqb_spec (Z.of_nat b) 0) as [E|_]; [lia|]. cbn [bind].
  rewrite np_sub_same_shape by congruence. cbn [bind].
  unfold half_mean_squared_diffs, np_sum, np_square. cbn [data].
  now rewrite (squared_diffs_positions Ho Ht Wo Wt).
Qed.

End ErrorFacts.

(** Over the reals the squared differences can be added one after the
    other. *)
Lemma call_same_shape_exact (outputs targets : ndarray R) (b d : nat) :
  shape outputs = [b; d] -> shape targets = [b; d] ->
  well_formed outputs -> well_formed targets -> 1 <= b ->
  SumOfSquaredDiffsError.call outputs targets
  = Ok (half_mean_squared_diffs sum_list outputs targets b d).
Proof.
  intros Ho Ht Wo Wt Hb.
  rewrite (call_same_shape Ho Ht Wo Wt Hb).
  unfold half_mean_squared_diffs. now rewrite sum_of_exact.
Qed.

(** Eight elements are added as numpy adds them, in eight partial sums:
    for the outputs [[[2^27, 1, 1, 1, 1, 1, 1, 1]]] and targets [0.0]
    the error is [2^53 + 2], where adding the squared differences one
    after the other gives [2^53]. *)
Lemma call_eight_elements :
  SumOfSquaredDiffsError.call eight_outputs eight_targets
  = Ok (B64.lit (2 ^ 53 + 2) 0).
Proof. vm_compute. reflexivity. Qed.

Lemma eight_elements_one_after_the_other :
  half_mean_squared_diffs sum_list eight_outputs eight_targets 1 8
  = B64.lit (2 ^ 53) 0.
Proof. vm_compute. reflexivity. Qed.

(** C1.  For arrays [outputs] and [targets] of one shape
    [(batch_size, output_dim)] with [batch_size >= 1],
    [SumOfSquaredDiffsError.__call__] returns
    [(1 / batch_size) * 0.5 * sum over all elements of
    (outputs - targets)^2]: whatever the type of the elements, with the
    squared differences at all the positions added up as numpy's [sum]
    adds them, which is a sum of these squared differences, each taken
    once; over the reals, where the order of the additions does not
    matter, with the squared differences added one after the other; on
    [outputs = [[1.0, 2.0]]], [targets = [[0.0, 0.0]]] in double
    precision it returns [2.5]; and on
    [outputs = [[2^27, 1, 1, 1, 1, 1, 1, 1]]] and targets [0.0], where
    the order of the additions shows, it returns [2^53 + 2]. *)
Theorem call_computes_half_mean_squared_diffs :
  (forall (F : Type) (S : Scalar F) (outputs targets : ndarray F)
          (batch_size output_dim : nat),
      shape outputs = [batch_size; output_dim] ->
      shape targets = [batch_size; output_dim] ->
      well_formed outputs -> well_formed targets ->
      1 <= batch_size ->
      SumOfSquaredDiffsError.call outputs targets
      = Ok (half_mean_squared_diffs sum_of outputs targets
              batch_size output_dim)
      /\ is_sum
           (map (squared_diff outputs targets)
                (positions batch_size output_dim))
           (sum_of (map (squared_diff outputs targets)
                        (positions batch_size output_dim))))
  /\ (forall (outputs targets : ndarray R) (batch_size output_dim : nat),
      shape outputs = [batch_size; output_dim] ->
      shape targets = [batch_size; output_dim] ->
      well_formed outputs -> well_formed targets ->
      1 <= batch_size ->
      SumOfSquaredDiffsError.call outputs targets
      = Ok (half_mean_squared_diffs sum_list outputs targets
              batch_size output_dim))
  /\ SumOfSquaredDiffsError.call scenario_outputs scenario_targets
     = Ok (B64.lit 5 (-1))
  /\ SumOfSquaredDiffsError.call eight_outputs eight_targets
     = Ok (B64.lit (2 ^ 53 + 2) 0).
Proof.
  split; [|split; [|split]].
  - intros F S outputs targets b d Ho Ht Wo Wt Hb.
    split; [now apply call_same_shape|apply is_sum_sum_of].
  - intros outputs targets b d. apply call_same_shape_exact.
  - vm_compute. reflexivity.
  - exact call_eight_elements.
Qed.

Lemma call_computes_half_mean_squared_diffs_witness :
  SumOfSquaredDiffsError.call scenario_outputs scenario_targets
  = Ok (half_mean_squared_diffs sum_of scenario_outputs scenario_targets
          1 2)
  /\ is_sum
       (map (squared_diff scenario_outputs scenario_targets)
            (positions 1 2))
       (sum_of (map (squared_diff scenario_outputs scenario_targets)
                    (positions 1 2))).
Proof.
  apply (proj1 call_computes_half_mean_squared_diffs B64.t binary64
           scenario_outputs scenario_targets 1 2).
  - reflexivity.
  - reflexivity.
  - reflexivity.
  - reflexivity.
  - lia.
Defined.

Section GradFacts.

Context {F : Type} `{Scalar F}.

Lemma grad_same_shape (outputs targets : ndarray F) (b d : nat) :
  shape outputs = [b; d] -> shape targets = [b; d] ->
  well_formed outputs -> well_formed targets -> 1 <= b ->
  SumOfSquaredDiffsError.grad outputs targets
  = Ok {| shape := [b; d];
          data := map (f_mul (f_truediv 1 (Z.of_nat b)))
                      (elementwise f_sub (data outputs) (data targets)) |}.
Proof.
  intros Ho Ht Wo Wt Hb.
  unfold SumOfSquaredDiffsError.grad. rewrite Ho. simpl.
  unfold py_truediv.
  destruct (Z.eqb_spec (Z.of_nat b) 0) as [E|_]; [lia|]. simpl.
  rewrite np_sub_same_shape by congruence. simpl.
  unfold np_scalar_mul. simpl. now rewrite Ho.
Qed.

Lemma set2_shape (a : ndarray F) (i j : nat) (x : F) :
  shape (set2 a i j x) = shape a.
Proof.
  unfold set2.
  destruct (shape a) as [|? [|? [|? ?]]] eqn:E; simpl; congruence.
Qed.

Lemma set2_well_formed (a : ndarray F) (i j : nat) (x : F) :
  well_formed a -> well_formed (set2 a i j x).
Proof.
  unfold well_formed. rewrite set2_shape. unfold set2.
  destruct (shape a) as [|? [|? [|? ?]]] eqn:E; simpl; try tauto.
  now rewrite length_insert.
Qed.

End GradFacts.

Section GradElements.

Context {F : Type} `{Scalar F}.

Lemma grad_elements (outputs targets : ndarray F) (b d : nat) :
  shape outputs = [b; d] -> shape targets = [b; d] ->
  well_formed outputs -> well_formed targets -> 1 <= b ->
  exists g : ndarray F,
    SumOfSquaredDiffsError.grad outputs targets = Ok g
    /\ shape g = shape outputs
    /\ well_formed g
    /\ forall i j, i < b -> j < d ->
         get2 g i j = mean_diff outputs targets b i j.
Proof.
  intros Ho Ht Wo Wt Hb.
  rewrite (grad_same_shape Ho Ht Wo Wt Hb).
  unfold well_formed in *. rewrite Ho in Wo. rewrite Ht in Wt.
  simpl in Wo, Wt. rewrite Nat.mul_1_r in Wo, Wt.
  eexists. split; [reflexivity|]. simpl. split; [now rewrite Ho|]. split.
  - rewrite length_map, length_elementwise. lia.
  - intros i j Hi Hj. unfold get2, mean_diff, get2. simpl.
    rewrite Ho, Ht.
    set (c := f_truediv 1 (Z.of_nat b)).
    assert (Hk : i * d + j < b * d) by nia.
    rewrite (nth_indep _ f_zero (f_mul c f_zero))
      by (rewrite length_map, length_elementwise; lia).
    rewrite (map_nth (f_mul c)). f_equal.
    apply nth_elementwise; lia.
Qed.

End GradElements.

Section ExactDerivative.

Open Scope R_scope.

(** The error as a function of one output, the others fixed: a
    polynomial of degree 2 in that output. *)
Lemma call_exact_one_output (outputs targets : ndarray R) (b d i j : nat)
    (x : R) :
  shape outputs = [b; d] -> shape targets = [b; d] ->
  well_formed outputs -> well_formed targets ->
  (1 <= b)%nat -> (i < b)%nat -> (j < d)%nat ->
  SumOfSquaredDiffsError.call (set2 outputs i j x) targets
  = Ok (1 / IZR (Z.of_nat b) * (1 / 2)
        * (sum_list (map (squared_diff outputs targets) (positions b d))
           - (get2 outputs i j - get2 targets i j)
             * (get2 outputs i j - get2 targets i j)
           + (x - get2 targets i j) * (x - get2 targets i j))).
Proof.
  intros Ho Ht Wo Wt Hb Hi Hj.
  assert (Hs : shape (set2 outputs i j x) = [b; d])
    by (now rewrite set2_shape).
  rewrite (call_same_shape_exact Hs Ht (set2_well_formed i j x Wo) Wt Hb).
  unfold half_mean_squared_diffs.
  rewrite (squared_diffs_positions Hs Ht (set2_well_formed i j x Wo) Wt).
  rewrite (squared_diffs_positions Ho Ht Wo Wt).
  unfold well_formed in Wo, Wt. rewrite Ho in Wo. rewrite Ht in Wt.
  simpl in Wo, Wt. rewrite Nat.mul_1_r in Wo, Wt.
  assert (Hk : (i * d + j < b * d)%nat) by nia.
  unfold set2, get2. rewrite Ho, Ht. simpl.
  rewrite sum_squares_insert by lia.
  reflexivity.
Qed.

Lemma call_exact_derivative (outputs targets : ndarray R) (b d i j : nat) :
  shape outputs = [b; d] -> shape targets = [b; d] ->
  well_formed outputs -> well_formed targets ->
  (1 <= b)%nat -> (i < b)%nat -> (j < d)%nat ->
  derivable_pt_lim
    (fun x => value_or 0
                (SumOfSquaredDiffsError.call (set2 outputs i j x) targets))
    (get2 outputs i j)
    (mean_diff outputs targets b i j).
Proof.
  intros Ho Ht Wo Wt Hb Hi Hj eps Heps.
  exists (mkposreal eps Heps). intros h Hh Hlt. simpl in Hlt.
  rewrite !(call_exact_one_output _ Ho Ht Wo Wt Hb Hi Hj). simpl.
  unfold mean_diff. simpl.
  set (c := 1 / IZR (Z.of_nat b)).
  set (o := get2 outputs i j). set (t := get2 targets i j).
  set (s := sum_list _).
  assert (Hc : 0 < c <= 1).
  { unfold c. assert (1 <= IZR (Z.of_nat b)) by (apply IZR_le; lia).
    split.
    - apply Rdiv_lt_0_compat; lra.
    - assert (Hinv : / IZR (Z.of_nat b) <= / 1)
        by (apply Rinv_le_contravar; lra).
      rewrite Rinv_1 in Hinv. lra. }
  replace ((c * (1 / 2) * (s - (o - t) * (o - t) + (o + h - t) * (o + h - t))
            - c * (1 / 2) * (s - (o - t) * (o - t) + (o - t) * (o - t))) / h
           - c * (o - t))
    with (c * (1 / 2) * h) by (field; assumption).
  rewrite Rabs_mult, (Rabs_pos_eq (c * (1 / 2))) by nra.
  assert (0 <= Rabs h) by apply Rabs_pos. nra.
Qed.

End ExactDerivative.

(** C2.  For arrays [outputs] and [targets] of one shape
    [(batch_size, output_dim)] with [batch_size >= 1],
    [SumOfSquaredDiffsError.grad] returns an array of the shape of
    [outputs] whose element at every position is
    [(1 / batch_size) * (outputs - targets)] there, without the factor
    [0.5]; over the real numbers that element is the derivative of the
    value of [__call__] with respect to the output at that position; on
    the scenario of the documentation it returns [[[1.0, 2.0]]]. *)
Theorem grad_is_mean_diff_and_derivative :
  (forall (F : Type) (S : Scalar F) (outputs targets : ndarray F)
          (batch_size output_dim : nat),
      shape outputs = [batch_size; output_dim] ->
      shape targets = [batch_size; output_dim] ->
      well_formed outputs -> well_formed targets ->
      1 <= batch_size ->
      exists g : ndarray F,
        SumOfSquaredDiffsError.grad outputs targets = Ok g
        /\ shape g = shape outputs
        /\ well_formed g
        /\ forall i j, i < batch_size -> j < output_dim ->
             get2 g i j = mean_diff outputs targets batch_size i j)
  /\ (forall (outputs targets : ndarray R) (batch_size output_dim i j : nat),
      shape outputs = [batch_size; output_dim] ->
      shape targets = [batch_size; output_dim] ->
      well_formed outputs -> well_formed targets ->
      1 <= batch_size -> i < batch_size -> j < output_dim ->
      derivable_pt_lim
        (fun x => value_or 0%R
                    (SumOfSquaredDiffsError.call (set2 outputs i j x) targets))
        (get2 outputs i j)
        (mean_diff outputs targets batch_size i j))
  /\ SumOfSquaredDiffsError.grad scenario_outputs scenario_targets
     = Ok {| shape := [1; 2]; data := [B64.lit 1 0; B64.lit 2 0] |}.
Proof.
  split; [|split].
  - intros F S outputs targets b d. apply grad_elements.
  - intros outputs targets b d i j. apply call_exact_derivative.
  - vm_compute. reflexivity.
Qed.

Lemma grad_is_mean_diff_and_derivative_witness :
  exists g : ndarray B64.t,
    SumOfSquaredDiffsError.grad scenario_outputs scenario_targets = Ok g
    /\ shape g = shape scenario_outputs
    /\ well_formed g
    /\ forall i j, i < 1 -> j < 2 ->
         get2 g i j = mean_diff scenario_outputs scenario_targets 1 i j.
Proof.
  apply (proj1 grad_is_mean_diff_and_derivative B64.t binary64
           scenario_outputs scenario_targets 1 2).
  - reflexivity.
  - reflexivity.
  - reflexivity.
  - reflexivity.
  - lia.
Defined.

(** ** Double precision arithmetic *)

(** A mantissa shifted left by [n] bits has [n] more digits. *)
Lemma digits2_pos_iter_xO (n : nat) (m : positive) :
  Zpos (digits2_pos (Nat.iter n xO m)) = (Zpos (digits2_pos m) + Z.of_nat n)%Z.
Proof.
  induction n as [|n IH]; [simpl; lia|].
  change (Nat.iter (S n) xO m) with (xO (Nat.iter n xO m)).
  change (digits2_pos (xO (Nat.iter n xO m)))
    with (Pos.succ (digits2_pos (Nat.iter n xO m))).
  rewrite Pos2Z.inj_succ, IH. lia.
Qed.

Lemma shr_fexp_shifted (m : positive) (e : Z) :
  fexp B64.prec B64.emax (Z.pos (digits2_pos m) + e) = e ->
  shr_fexp B64.prec B64.emax (Z.pos (Nat.iter 52 xO m)) (-52 + e) loc_Exact
  = ({| shr_m := Z.pos m; shr_r := false; shr_s := false |}, e).
Proof.
  intros Hc. unfold shr_fexp, Zdigits2. rewrite digits2_pos_iter_xO.
  replace (Z.pos (digits2_pos m) + Z.of_nat 52 + (-52 + e))%Z
    with (Z.pos (digits2_pos m) + e)%Z by lia.
  rewrite Hc.
  replace (e - (-52 + e))%Z with 52%Z by lia.
  change (shr (shr_record_of_loc (Z.pos (Nat.iter 52 xO m)) loc_Exact) (-52 + e) 52)
    with ({| shr_m := Z.pos m; shr_r := false; shr_s := false |}, (-52 + e + 52)%Z).
  f_equal. lia.
Qed.

Lemma shr_fexp_canonical (m : positive) (e : Z) :
  fexp B64.prec B64.emax (Z.pos (digits2_pos m) + e) = e ->
  shr_fexp B64.prec B64.emax (Z.pos m) e loc_Exact
  = ({| shr_m := Z.pos m; shr_r := false; shr_s := false |}, e).
Proof.
  intros Hc. unfold shr_fexp, Zdigits2. rewrite Hc, Z.sub_diag. reflexivity.
Qed.

(** [1.0 * x] is [x], whatever the double [x]. *)
Lemma mul_one_l (x : B64.t) :
  valid_binary B64.prec B64.emax x = true -> B64.mul (B64.lit 1 0) x = x.
Proof.
  destruct x as [s|s| |s m e]; try reflexivity.
  unfold valid_binary, bounded, canonical_mantissa. intros Hv.
  apply andb_prop in Hv. destruct Hv as [Hc Hb].
  apply Z.eqb_eq in Hc.
  change (B64.lit 1 0) with (S754_finite false 4503599627370496 (-52)).
  unfold B64.mul, SFmul. cbn [xorb].
  change (Pos.mul 4503599627370496 m) with (Nat.iter 52 xO m).
  unfold binary_round_aux.
  rewrite (@shr_fexp_shifted m e Hc).
  cbn [shr_m loc_of_shr_record round_nearest_even].
  rewrite (@shr_fexp_canonical m e Hc).
  cbn [shr_m]. now rewrite Hb.
Qed.


Section DoubleSigns.

Local Open Scope Z_scope.

(** *** Signs *)

Lemma signbit_round_aux (s : bool) (m e : Z) (l : location) :
  B64.signbit (binary_round_aux B64.prec B64.emax s m e l) = s
  \/ binary_round_aux B64.prec B64.emax s m e l = S754_nan.
Proof.
  unfold binary_round_aux.
  destruct (shr_fexp B64.prec B64.emax m e l) as [mrs' e'].
  destruct (shr_fexp B64.prec B64.emax _ e' loc_Exact) as [mrs'' e''].
  destruct (shr_m mrs'') as [|p|p]; [left; reflexivity| |right; reflexivity].
  destruct (e'' <=? B64.emax - B64.prec); left; reflexivity.
Qed.

(** *** Rounding a mantissa that is not negative never gives NaN *)

Lemma shr_1_nonneg (mrs : shr_record) :
  0 <= shr_m mrs -> 0 <= shr_m (shr_1 mrs).
Proof.
  destruct mrs as [m r s]. cbn [shr_m]. intros Hm.
  destruct m as [|[p|p|]|p]; cbn; lia.
Qed.

Lemma iter_shr_1_nonneg (p : positive) :
  forall mrs, 0 <= shr_m mrs -> 0 <= shr_m (SpecFloat.iter_pos shr_1 p mrs).
Proof.
  induction p as [p IH|p IH|]; intros mrs Hm; cbn [SpecFloat.iter_pos].
  - apply IH, IH, shr_1_nonneg, Hm.
  - apply IH, IH, Hm.
  - apply shr_1_nonneg, Hm.
Qed.

Lemma shr_fexp_nonneg (m e : Z) (l : location) :
  0 <= m -> 0 <= shr_m (fst (shr_fexp B64.prec B64.emax m e l)).
Proof.
  intros Hm. unfold shr_fexp, shr.
  assert (H0 : 0 <= shr_m (shr_record_of_loc m l))
    by (destruct l as [|[| |]]; exact Hm).
  destruct (fexp B64.prec B64.emax (Zdigits2 m + e) - e) as [|p|p];
    cbn [fst]; [exact H0| |exact H0].
  now apply iter_shr_1_nonneg.
Qed.

Lemma round_nearest_even_nonneg (m : Z) (l : location) :
  0 <= m -> 0 <= round_nearest_even m l.
Proof.
  intros Hm. destruct l as [|[| |]]; cbn; try lia.
  destruct (Z.even m); lia.
Qed.

Lemma round_aux_not_nan (s : bool) (m e : Z) (l : location) :
  0 <= m -> binary_round_aux B64.prec B64.emax s m e l <> S754_nan.
Proof.
  intros Hm. unfold binary_round_aux.
  pose proof (@shr_fexp_nonneg m e l Hm) as H1.
  destruct (shr_fexp B64.prec B64.emax m e l) as [mrs' e']. cbn [fst] in H1.
  pose proof (@shr_fexp_nonneg _ e' loc_Exact
                (@round_nearest_even_nonneg _ (loc_of_shr_record mrs') H1))
    as H2.
  destruct (shr_fexp B64.prec B64.emax _ e' loc_Exact) as [mrs'' e''].
  cbn [fst] in H2.
  destruct (shr_m mrs'') as [|p|p]; [discriminate| |lia].
  destruct (e'' <=? B64.emax - B64.prec); discriminate.
Qed.

Lemma round_aux_nonneg (m e : Z) (l : location) :
  0 <= m -> nonneg (binary_round_aux B64.prec B64.emax false m e l).
Proof.
  intros Hm. pose proof (@round_aux_not_nan false m e l Hm) as Hn.
  split.
  - destruct (binary_round_aux B64.prec B64.emax false m e l);
      try reflexivity. congruence.
  - destruct (signbit_round_aux false m e l); congruence.
Qed.

Lemma truediv_nonneg (a b : Z) :
  0 < a -> 0 < b -> nonneg (B64.truediv a b).
Proof.
  intros Ha Hb.
  destruct a as [|a|a]; try lia. destruct b as [|b|b]; try lia.
  change (B64.truediv (Z.pos a) (Z.pos b))
    with (let '(q, e, l) :=
            SFdiv_core_binary B64.prec B64.emax (Z.pos a) 0 (Z.pos b) 0 in
          binary_round_aux B64.prec B64.emax false q e l).
  unfold SFdiv_core_binary.
  set (m' := match _ with Z.pos _ => _ | 0 => _ | Z.neg _ => 0 end).
  assert (Hm' : 0 <= m').
  { unfold m'. destruct (_ - _ - _) as [|p|p]; try lia.
    apply Z.shiftl_nonneg. lia. }
  pose proof (Z.div_pos m' (Z.pos b) Hm' ltac:(lia)) as Hq.
  unfold Z.div in Hq.
  destruct (Z.div_eucl m' (Z.pos b)) as [q r]. cbn [fst] in Hq.
  now apply round_aux_nonneg.
Qed.

Lemma sqrt_nonneg (x : B64.t) : nonneg x -> nonneg (B64.sqrt x).
Proof.
  intros [Hn Hs]. destruct x as [s|s| |s m e]; cbn in Hn, Hs; subst;
    try discriminate; cbn; try (split; reflexivity).
  unfold SFsqrt_core_binary.
  set (m' := match _ with Z.pos _ => _ | 0 => _ | Z.neg _ => 0 end).
  pose proof (Z.sqrtrem_spec m') as Hsq.
  destruct (Z.sqrtrem m') as [q r].
  assert (Hm' : 0 <= m').
  { unfold m'. destruct (_ - _) as [|p|p]; try lia.
    apply Z.shiftl_nonneg. lia. }
  specialize (Hsq Hm').
  apply round_aux_nonneg. nia.
Qed.

Lemma neg_le_self (x : B64.t) : nonneg x -> B64.leb (B64.neg x) x = true.
Proof.
  intros [Hn Hs]. destruct x as [s|s| |s m e]; cbn in Hn, Hs; subst;
    try discriminate; reflexivity.
Qed.

Lemma of_int_pos_nonneg (n : Z) : 0 < n -> nonneg (B64.of_int n).
Proof.
  intros Hn. destruct n as [|p|p]; try lia.
  unfold B64.of_int, B64.lit, binary_normalize, binary_round.
  destruct (shl_align p 0 _) as [mz ez].
  apply round_aux_nonneg. lia.
Qed.

Lemma div_one_nonneg (x : B64.t) :
  B64.signbit x = false -> B64.signbit (B64.div (B64.of_int 1) x) = false.
Proof.
  intros Hs.
  change (B64.of_int 1) with (S754_finite false 4503599627370496 (-52)).
  destruct x as [s|s| |s m e]; cbn in Hs; subst; try reflexivity.
  unfold B64.div, SFdiv. cbn [xorb].
  destruct (SFdiv_core_binary _ _ _ _ _ _) as [[mz ez] lz].
  destruct (signbit_round_aux false mz ez lz) as [E|E]; rewrite E;
    reflexivity.
Qed.

Lemma leb_refl (x y : B64.t) :
  B64.leb x y = true -> B64.leb x x = true /\ B64.leb y y = true.
Proof.
  assert (Hrefl : forall z : B64.t, B64.is_nan z = false ->
                    B64.leb z z = true).
  { intros [s|s| |s m e] Hz; try discriminate; try reflexivity.
    - now destruct s.
    - unfold B64.leb, SFleb, SFcompare.
      destruct s; now rewrite Z.compare_refl, Pos.compare_cont_refl. }
  intros Hxy. split; apply Hrefl.
  - now destruct x.
  - destruct y; try reflexivity. now destruct x.
Qed.

End DoubleSigns.


Section DoubleBounds.

Local Open Scope Z_scope.

(** *** Sizes of mantissas *)

Lemma digits2_pos_size (p : positive) : digits2_pos p = Pos.size p.
Proof. induction p as [p IH|p IH|]; cbn; now rewrite ?IH. Qed.

Lemma Zdigits2_log2 (p : positive) :
  Zdigits2 (Z.pos p) = Z.log2 (Z.pos p) + 1.
Proof.
  cbn [Zdigits2]. rewrite digits2_pos_size.
  destruct p as [p|p|]; cbn [Pos.size Z.log2]; lia.
Qed.

Lemma Zdigits2_nonneg (m : Z) : 0 <= Zdigits2 m.
Proof. destruct m; cbn; lia. Qed.

Lemma Zdigits2_le_pow2 (q s : Z) :
  0 <= s -> 0 <= q <= 2 ^ s -> Zdigits2 q <= s + 1.
Proof.
  intros Hs [Hq0 Hq]. destruct q as [|p|p]; [cbn; lia| |lia].
  rewrite Zdigits2_log2.
  pose proof (Z.log2_le_mono _ _ Hq) as Hl.
  rewrite Z.log2_pow2 in Hl by assumption. lia.
Qed.

Lemma Zdigits2_log2_pos (m : Z) : 0 < m -> Zdigits2 m = Z.log2 m + 1.
Proof. destruct m as [|p|p]; try lia. intros _. apply Zdigits2_log2. Qed.

Lemma Zdigits2_succ (m : Z) : 0 <= m -> Zdigits2 (m + 1) <= Zdigits2 m + 1.
Proof.
  intros Hm. destruct (Z.eq_dec m 0) as [->|Hne];
    [apply Z.leb_le; reflexivity|].
  assert (H1 : 0 < m + 1) by lia. assert (H2 : 0 < m) by lia.
  rewrite (Zdigits2_log2_pos H1), (Zdigits2_log2_pos H2).
  pose proof (Z.log2_succ_le m) as Hl. unfold Z.succ in Hl. lia.
Qed.

(** *** Shifting a mantissa to the right *)

Lemma shr_1_digits (mrs : shr_record) :
  0 <= shr_m mrs ->
  0 <= shr_m (shr_1 mrs)
  /\ Zdigits2 (shr_m (shr_1 mrs)) = Z.max (Zdigits2 (shr_m mrs) - 1) 0.
Proof.
  destruct mrs as [m r s]. cbn [shr_m]. intros Hm.
  destruct m as [|[p|p|]|p]; cbn [shr_1 shr_m Zdigits2 digits2_pos];
    try lia.
Qed.

Lemma iter_shr_1_digits (p : positive) :
  forall mrs,
    0 <= shr_m mrs ->
    0 <= shr_m (SpecFloat.iter_pos shr_1 p mrs)
    /\ Zdigits2 (shr_m (SpecFloat.iter_pos shr_1 p mrs))
       = Z.max (Zdigits2 (shr_m mrs) - Z.pos p) 0.
Proof.
  induction p as [p IH|p IH|]; intros mrs Hm; cbn [SpecFloat.iter_pos].
  - destruct (shr_1_digits mrs Hm) as [H1 E1].
    destruct (IH _ H1) as [H2 E2]. destruct (IH _ H2) as [H3 E3].
    split; [exact H3|]. rewrite E3, E2, E1. lia.
  - destruct (IH _ Hm) as [H2 E2]. destruct (IH _ H2) as [H3 E3].
    split; [exact H3|]. rewrite E3, E2. lia.
  - destruct (shr_1_digits mrs Hm) as [H1 E1]. split; [exact H1|].
    rewrite E1. lia.
Qed.

Lemma shr_fexp_bounds (m e : Z) (l : location) :
  0 <= m ->
  let mrs := fst (shr_fexp B64.prec B64.emax m e l) in
  let e1 := snd (shr_fexp B64.prec B64.emax m e l) in
  0 <= shr_m mrs
  /\ e1 = Z.max e (fexp B64.prec B64.emax (Zdigits2 m + e))
  /\ Zdigits2 (shr_m mrs) + e1 <= Z.max (Zdigits2 m + e) e1.
Proof.
  intros Hm. unfold shr_fexp, shr.
  assert (H0 : shr_m (shr_record_of_loc m l) = m)
    by (destruct l as [|[| |]]; reflexivity).
  destruct (fexp B64.prec B64.emax (Zdigits2 m + e) - e) as [|p|p] eqn:E;
    cbn [fst snd]; rewrite ?H0.
  - repeat split; [assumption|lia|lia].
  - destruct (@iter_shr_1_digits p (shr_record_of_loc m l)) as [H1 E1];
      [now rewrite H0|].
    rewrite H0 in E1. split; [exact H1|]. rewrite E1. lia.
  - repeat split; [assumption|lia|lia].
Qed.

(** Rounding a mantissa that is not too large gives a finite double. *)
Lemma round_aux_finite (s : bool) (m e : Z) (l : location) (K : Z) :
  0 <= m -> e <= 971 -> Zdigits2 m + e <= K -> K <= 1023 ->
  match binary_round_aux B64.prec B64.emax s m e l with
  | S754_zero s' => s' = s
  | S754_finite s' m' e' =>
      s' = s /\ e' <= Z.max e (Z.max (K - 52) (-1074))
      /\ Zdigits2 (Z.pos m') + e' <= Z.max (K + 1) (e' + 1)
  | _ => False
  end.
Proof.
  intros Hm He HK HK'. unfold binary_round_aux.
  pose proof (@shr_fexp_bounds m e l Hm) as (H1 & E1 & D1).
  destruct (shr_fexp B64.prec B64.emax m e l) as [mrs' e'].
  cbn [fst snd] in H1, E1, D1.
  set (m2 := round_nearest_even (shr_m mrs') (loc_of_shr_record mrs')).
  assert (Hm2 : 0 <= m2 /\ Zdigits2 m2 <= Zdigits2 (shr_m mrs') + 1).
  { unfold m2.
    pose proof (Zdigits2_succ H1).
    destruct (loc_of_shr_record mrs') as [|[| |]]; cbn; try lia.
    destruct (Z.even (shr_m mrs')); lia. }
  destruct Hm2 as [Hm2 Dm2].
  pose proof (@shr_fexp_bounds m2 e' loc_Exact Hm2) as (H3 & E3 & D3).
  destruct (shr_fexp B64.prec B64.emax m2 e' loc_Exact) as [mrs'' e''].
  cbn [fst snd] in H3, E3, D3.
  unfold fexp, emin, B64.prec, B64.emax in *.
  destruct (shr_m mrs'') as [|p|p] eqn:Ep; [reflexivity| |lia].
  assert (Hle : e'' <= 971) by lia.
  apply Z.leb_le in Hle. change (1024 - 53) with 971. rewrite Hle.
  split; [reflexivity|]. lia.
Qed.

(** *** The factor [1 / batch_size * 0.5] *)

Lemma truediv_one_bounded (b : Z) :
  1 <= b ->
  match B64.truediv 1 b with
  | S754_zero s => s = false
  | S754_finite s m e => s = false /\ e <= 0 /\ Zdigits2 (Z.pos m) + e <= 2
  | _ => False
  end.
Proof.
  intros Hb. destruct b as [|b|b]; try lia.
  change (B64.truediv 1 (Z.pos b))
    with (let '(q, e, l) :=
            SFdiv_core_binary B64.prec B64.emax 1 0 (Z.pos b) 0 in
          binary_round_aux B64.prec B64.emax false q e l).
  unfold SFdiv_core_binary.
  change (Zdigits2 1 + 0 - (Zdigits2 (Z.pos b) + 0))
    with (1 + 0 - (Zdigits2 (Z.pos b) + 0)).
  set (e' := Z.min (fexp B64.prec B64.emax (1 + 0 - (Zdigits2 (Z.pos b) + 0)))
                   (0 - 0)).
  assert (He' : e' <= 0) by (unfold e'; lia).
  set (m' := match 0 - 0 - e' with
             | 0 => 1 | Z.pos _ => Z.shiftl 1 (0 - 0 - e') | Z.neg _ => 0
             end).
  assert (Hm' : 0 <= m' <= 2 ^ (- e')).
  { unfold m'. replace (0 - 0 - e') with (- e') by lia.
    destruct (- e') as [|p|p] eqn:E; try lia.
    - rewrite Z.shiftl_1_l. pose proof (Z.pow_pos_nonneg 2 (Z.pos p)). lia. }
  pose proof (Z.div_pos m' (Z.pos b) (proj1 Hm') ltac:(lia)) as Hq0.
  assert (Hq : m' / Z.pos b <= m')
    by (apply Z.div_le_upper_bound; nia).
  unfold Z.div in Hq0, Hq.
  destruct (Z.div_eucl m' (Z.pos b)) as [q r]. cbn [fst] in Hq0, Hq.
  assert (Hd : Zdigits2 q + e' <= 1).
  { assert (Zdigits2 q <= - e' + 1)
      by (apply Zdigits2_le_pow2; lia). lia. }
  pose proof (@round_aux_finite false q e' (new_location (Z.pos b) r) 1
                Hq0 ltac:(lia) Hd ltac:(lia)) as Hr.
  destruct (binary_round_aux B64.prec B64.emax false q e' _)
    as [s|s| |s m e]; try assumption.
  destruct Hr as (Hs & He & Hdm). repeat split; [assumption|lia|lia].
Qed.

Lemma Zdigits2_mul_pow2_52 (m : positive) :
  Zdigits2 (Z.pos (m * 4503599627370496)) = Zdigits2 (Z.pos m) + 52.
Proof.
  rewrite !Zdigits2_log2. rewrite Pos2Z.inj_mul.
  change (Z.pos 4503599627370496) with (2 ^ 52).
  rewrite Z.log2_mul_pow2 by lia. lia.
Qed.

(** [1 / batch_size * 0.5] is a finite double that is not negative. *)
Lemma scale_finite (b : Z) :
  1 <= b ->
  B64.is_finite (B64.mul (B64.truediv 1 b) (B64.lit 1 (-1))) = true
  /\ B64.signbit (B64.mul (B64.truediv 1 b) (B64.lit 1 (-1))) = false.
Proof.
  intros Hb. pose proof (truediv_one_bounded Hb) as Ht.
  change (B64.lit 1 (-1)) with (S754_finite false 4503599627370496 (-53)).
  destruct (B64.truediv 1 b) as [s|s| |s m e]; try contradiction.
  - subst s. split; reflexivity.
  - destruct Ht as (-> & He & Hd).
    unfold B64.mul, SFmul. cbn [xorb].
    pose proof (@round_aux_finite false
                  (Z.pos (m * 4503599627370496)) (e + -53) loc_Exact 1
                  ltac:(lia) ltac:(lia)
                  ltac:(rewrite Zdigits2_mul_pow2_52; lia) ltac:(lia)) as Hr.
    destruct (binary_round_aux B64.prec B64.emax false _ _ _)
      as [s'|s'| |s' m' e']; try contradiction.
    + subst s'. split; reflexivity.
    + destruct Hr as (-> & _). split; reflexivity.
Qed.

Lemma mul_finite_zero (c : B64.t) :
  B64.is_finite c = true -> B64.signbit c = false ->
  B64.mul c (S754_zero false) = S754_zero false.
Proof.
  destruct c as [s|s| |s m e]; cbn; intros Hf Hs; try discriminate;
    now subst s.
Qed.

(** *** What has no sign bit stays so *)

Lemma mul_self_signbit (x : B64.t) : B64.signbit (B64.mul x x) = false.
Proof.
  destruct x as [s|s| |s m e]; cbn [B64.mul SFmul B64.signbit];
    try reflexivity; try (now destruct s).
  - destruct (signbit_round_aux (xorb s s) (Z.pos (m * m)) (e + e) loc_Exact)
      as [E|E]; rewrite E; [now destruct s|reflexivity].
Qed.

Lemma mul_signbit (x y : B64.t) :
  B64.signbit x = false -> B64.signbit y = false ->
  B64.signbit (B64.mul x y) = false.
Proof.
  destruct x as [s|s| |s m e], y as [s'|s'| |s' m' e']; cbn [B64.signbit];
    intros Hx Hy; try subst s; try subst s'; try reflexivity.
  unfold B64.mul, SFmul. cbn [xorb].
  destruct (signbit_round_aux false (Z.pos (m * m')) (e + e') loc_Exact)
    as [E|E]; rewrite E; reflexivity.
Qed.

Lemma add_signbit (x y : B64.t) :
  B64.signbit x = false -> B64.signbit y = false ->
  B64.signbit (B64.add x y) = false.
Proof.
  destruct x as [s|s| |s m e], y as [s'|s'| |s' m' e']; cbn [B64.signbit];
    intros Hx Hy; try subst s; try subst s'; try reflexivity.
  unfold B64.add, SFadd, cond_Zopp.
  destruct (shl_align m e (Z.min e e')) as [a ea].
  destruct (shl_align m' e' (Z.min e e')) as [a' ea'].
  cbn [fst]. change (Z.pos a + Z.pos a') with (Z.pos (a + a')).
  unfold binary_normalize, binary_round.
  destruct (shl_align (a + a') (Z.min e e') _) as [mz ez].
  destruct (signbit_round_aux false (Z.pos mz) ez loc_Exact) as [E|E];
    rewrite E; reflexivity.
Qed.

(** However numpy groups the additions, a sum of doubles without sign
    bit has no sign bit. *)
Lemma sum_signbit (l : list B64.t) :
  List.Forall (fun x => B64.signbit x = false) l ->
  B64.signbit (sum_of l) = false.
Proof.
  apply (@is_sum_closed B64.t binary64 (fun x => B64.signbit x = false));
    [reflexivity|exact add_signbit|apply is_sum_sum_of].
Qed.

Lemma signbit_false_not_negative (v : B64.t) :
  B64.signbit v = false ->
  B64.is_nan v = true \/ B64.leb (S754_zero false) v = true.
Proof.
  destruct v as [s|s| |s m e]; cbn; intros Hs; try subst s;
    [right|right|left|right]; reflexivity.
Qed.

(** *** Equal finite doubles *)

Lemma eqb_finite_sub (x y : B64.t) :
  B64.is_finite x = true -> B64.eqb x y = true ->
  exists s, B64.sub x y = S754_zero s.
Proof.
  destruct x as [s|s| |s m e], y as [s'|s'| |s' m' e'];
    cbn [B64.is_finite]; intros Hf He; try discriminate;
    try (destruct s; discriminate); try (destruct s'; discriminate).
  - destruct s, s'; eexists; reflexivity.
  - unfold B64.eqb, SFeqb, SFcompare in He.
    change (Pos.compare_cont Eq m m') with (Pos.compare m m') in He.
    assert (E : s = s' /\ e = e' /\ m = m').
    { destruct s, s'; try discriminate;
        destruct (Z.compare_spec e e') as [Ee|Ee|Ee]; try discriminate;
        destruct (Pos.compare_spec m m') as [Em|Em|Em]; try discriminate;
        now repeat split. }
    destruct E as (<- & <- & <-).
    exists false. unfold B64.sub, SFsub. rewrite Z.sub_diag. reflexivity.
Qed.

Lemma equal_finite_squares (lo lt : list B64.t) :
  List.Forall (fun x => B64.is_finite x = true) lo ->
  Forall2 (fun x y => B64.eqb x y = true) lo lt ->
  List.Forall (fun z => z = S754_zero false)
    (map (fun x => B64.mul x x) (elementwise B64.sub lo lt)).
Proof.
  intros Hf Heq. induction Heq as [|x y lo lt Hxy Heq IH].
  - constructor.
  - inversion Hf as [|? ? Hx Hf']; subst.
    unfold elementwise. cbn [combine map fst snd]. constructor.
    + destruct (eqb_finite_sub x y Hx Hxy) as [s ->]. now destruct s.
    + now apply IH.
Qed.

Lemma sum_zeros (l : list B64.t) :
  List.Forall (fun z => z = S754_zero false) l ->
  sum_of l = S754_zero false.
Proof.
  apply (@is_sum_closed B64.t binary64 (fun z => z = S754_zero false));
    [reflexivity|now intros x y -> ->|apply is_sum_sum_of].
Qed.

End DoubleBounds.

Section DoubleRange.

Local Open Scope Z_scope.

(** *** The range of [XavierInit] *)

Lemma truediv_six_bounded (n : Z) :
  1 <= n ->
  match B64.truediv 6 n with
  | S754_zero s => s = false
  | S754_finite s m e => s = false /\ e <= 0 /\ Zdigits2 (Z.pos m) + e <= 5
  | _ => False
  end.
Proof.
  intros Hn. destruct n as [|n|n]; try lia.
  change (B64.truediv 6 (Z.pos n))
    with (let '(q, e, l) :=
            SFdiv_core_binary B64.prec B64.emax 6 0 (Z.pos n) 0 in
          binary_round_aux B64.prec B64.emax false q e l).
  unfold SFdiv_core_binary.
  change (Zdigits2 6 + 0 - (Zdigits2 (Z.pos n) + 0))
    with (3 + 0 - (Zdigits2 (Z.pos n) + 0)).
  set (e' := Z.min (fexp B64.prec B64.emax (3 + 0 - (Zdigits2 (Z.pos n) + 0)))
                   (0 - 0)).
  assert (He' : e' <= 0) by (unfold e'; lia).
  set (m' := match 0 - 0 - e' with
             | 0 => 6 | Z.pos _ => Z.shiftl 6 (0 - 0 - e') | Z.neg _ => 0
             end).
  assert (Hm' : 0 <= m' <= 2 ^ (3 - e')).
  { unfold m'. replace (0 - 0 - e') with (- e') by lia.
    replace (3 - e') with (3 + - e') by lia.
    rewrite Z.pow_add_r by lia.
    pose proof (Z.pow_pos_nonneg 2 (- e') ltac:(lia) ltac:(lia)) as Hp.
    destruct (- e') as [|p|p] eqn:E; try lia.
    rewrite Z.shiftl_mul_pow2 by lia. rewrite <- E in *. nia. }
  pose proof (Z.div_pos m' (Z.pos n) (proj1 Hm') ltac:(lia)) as Hq0.
  assert (Hq : m' / Z.pos n <= m')
    by (apply Z.div_le_upper_bound; nia).
  unfold Z.div in Hq0, Hq.
  destruct (Z.div_eucl m' (Z.pos n)) as [q r]. cbn [fst] in Hq0, Hq.
  assert (Hd : Zdigits2 q + e' <= 4).
  { assert (Zdigits2 q <= 3 - e' + 1)
      by (apply Zdigits2_le_pow2; lia). lia. }
  pose proof (@round_aux_finite false q e' (new_location (Z.pos n) r) 4
                Hq0 ltac:(lia) Hd ltac:(lia)) as Hr.
  destruct (binary_round_aux B64.prec B64.emax false q e' _)
    as [s|s| |s m e]; try assumption.
  destruct Hr as (Hs & He & Hdm). repeat split; [assumption|lia|lia].
Qed.

(** The square root of a double below [2^6] is a double below [2^5]. *)
Lemma sqrt_bounded (m : positive) (e : Z) :
  e <= 0 -> Zdigits2 (Z.pos m) + e <= 6 ->
  match B64.sqrt (S754_finite false m e) with
  | S754_zero s => s = false
  | S754_finite s m' e' =>
      s = false /\ e' <= 0 /\ Zdigits2 (Z.pos m') + e' <= 5
  | _ => False
  end.
Proof.
  intros He Hd. unfold B64.sqrt, SFsqrt, SFsqrt_core_binary.
  set (e' := Z.min (fexp B64.prec B64.emax
                      (Z.div2 (Zdigits2 (Z.pos m) + e + 1))) (Z.div2 e)).
  assert (He2 : 2 * Z.div2 e <= e)
    by (rewrite Z.div2_div; pose proof (Z.mul_div_le e 2); lia).
  assert (He' : 2 * e' <= e /\ e' <= 0) by (unfold e'; lia).
  set (m' := match e - 2 * e' with
             | 0 => Z.pos m
             | Z.pos _ => Z.shiftl (Z.pos m) (e - 2 * e')
             | Z.neg _ => 0
             end).
  assert (Hm : Z.pos m < 2 ^ (6 - e)).
  { rewrite Zdigits2_log2 in Hd.
    apply Z.log2_lt_pow2; lia. }
  assert (Hm' : 0 <= m' < 2 ^ (6 - 2 * e')).
  { unfold m'.
    replace (6 - 2 * e') with (6 - e + (e - 2 * e')) by lia.
    rewrite Z.pow_add_r by lia.
    pose proof (Z.pow_pos_nonneg 2 (e - 2 * e') ltac:(lia) ltac:(lia)) as Hp.
    destruct (e - 2 * e') as [|p|p] eqn:E; try lia.
    rewrite Z.shiftl_mul_pow2 by lia. rewrite <- E in *. nia. }
  pose proof (Z.sqrtrem_spec m' (proj1 Hm')) as Hsq.
  destruct (Z.sqrtrem m') as [q r].
  assert (Hq : 0 <= q <= 2 ^ (3 - e')).
  { split; [lia|].
    destruct (Z.le_gt_cases q (2 ^ (3 - e'))) as [Hle|Hgt]; [exact Hle|].
    exfalso.
    assert (Hsqr : 2 ^ (6 - 2 * e') = 2 ^ (3 - e') * 2 ^ (3 - e')).
    { rewrite <- Z.pow_add_r by lia. f_equal. lia. }
    pose proof (Z.pow_pos_nonneg 2 (3 - e') ltac:(lia) ltac:(lia)).
    nia. }
  assert (Hdq : Zdigits2 q + e' <= 4).
  { assert (Zdigits2 q <= 3 - e' + 1)
      by (apply Zdigits2_le_pow2; lia). lia. }
  pose proof (@round_aux_finite false q e'
                (if (r =? 0) then loc_Exact
                 else loc_Inexact (if (r <=? q) then Lt else Gt)) 4
                ltac:(lia) ltac:(lia) Hdq ltac:(lia)) as Hr.
  destruct (binary_round_aux _ _ false q e' _)
    as [s|s| |s m2 e2]; try assumption.
  destruct Hr as (Hs & He2' & Hdm). repeat split; [assumption|lia|lia].
Qed.

Lemma shl_align_digits (m : positive) (e e0 : Z) :
  let '(m', e') := shl_align m e e0 in
  Zdigits2 (Z.pos m') + e' = Zdigits2 (Z.pos m) + e /\ e' <= e.
Proof.
  unfold shl_align.
  destruct (e0 - e) as [|p|p] eqn:E; cbv beta iota; [lia|lia|].
  split; [|lia].
  change (Pos.iter xO m p) with (shift_pos p m).
  rewrite !Zdigits2_log2, shift_pos_correct, Z.pow_pos_fold, Z.mul_comm.
  rewrite Z.log2_mul_pow2 by lia. lia.
Qed.

(** A double below [2^5] that is not negative, minus its opposite, is a
    finite double. *)
Lemma sub_neg_finite (x : B64.t) :
  match x with
  | S754_zero s => s = false
  | S754_finite s m e => s = false /\ e <= 0 /\ Zdigits2 (Z.pos m) + e <= 5
  | _ => False
  end ->
  B64.is_finite (B64.sub x (B64.neg x)) = true.
Proof.
  destruct x as [s|s| |s m e]; try contradiction.
  - intros ->. reflexivity.
  - intros (-> & He & Hd).
    unfold B64.sub, B64.neg, SFopp, SFsub. cbn [negb cond_Zopp].
    rewrite Z.min_id.
    replace (shl_align m e e) with (m, e)
      by (unfold shl_align; now rewrite Z.sub_diag).
    cbn [fst]. change (Z.pos m - - Z.pos m) with (Z.pos (m + m)).
    unfold binary_normalize, binary_round.
    pose proof (@shl_align_digits (m + m) e
                  (fexp B64.prec B64.emax (Z.pos (digits2_pos (m + m)) + e)))
      as Hz.
    destruct (shl_align (m + m) e _) as [mz ez]. destruct Hz as [Hz Hez].
    assert (Hda : Zdigits2 (Z.pos (m + m)) = Zdigits2 (Z.pos m) + 1).
    { rewrite !Zdigits2_log2.
      replace (Z.pos (m + m)) with (2 * Z.pos m) by lia.
      rewrite Z.log2_double by lia. lia. }
    pose proof (@round_aux_finite false (Z.pos mz) ez loc_Exact 1023
                  ltac:(lia) ltac:(lia) ltac:(lia) ltac:(lia)) as Hr.
    destruct (binary_round_aux _ _ false (Z.pos mz) ez loc_Exact);
      try contradiction; reflexivity.
Qed.

(** The range [sqrt(6/n) - (-sqrt(6/n))] of [XavierInit] is a finite
    double, whatever the positive integer [n]. *)
Lemma xavier_range_finite (n : Z) :
  0 < n ->
  B64.is_finite
    (B64.sub (B64.sqrt (B64.truediv 6 n))
             (B64.neg (B64.sqrt (B64.truediv 6 n)))) = true.
Proof.
  intros Hn. apply sub_neg_finite.
  pose proof (@truediv_six_bounded n ltac:(lia)) as Ht.
  destruct (B64.truediv 6 n) as [s|s| |s m e]; try contradiction.
  - exact Ht.
  - destruct Ht as (-> & He & Hd). apply sqrt_bounded; lia.
Qed.

End DoubleRange.

(** ** ConstantInit *)

Section ConstantFacts.

Context {F : Type} `{Scalar F}.

Lemma check_dims_nonneg (s : list Z) :
  Forall (fun d => (0 <= d)%Z) s -> length s <= NPY_MAXDIMS ->
  check_dims s = Ok (map Z.to_nat s).
Proof.
  intros Hs Hn. unfold check_dims.
  apply Nat.leb_le in Hn. rewrite Hn. cbn [andb].
  replace (forallb (fun d => (0 <=? d)%Z) s) with true; [reflexivity|].
  symmetry. apply forallb_forall. intros d Hd.
  rewrite List.Forall_forall in Hs. apply Z.leb_le. now apply Hs.
Qed.

Lemma check_dims_negative (s : list Z) :
  Exists (fun d => (d < 0)%Z) s -> check_dims s = Raise ValueError.
Proof.
  intros Hs. unfold check_dims.
  replace (forallb (fun d => (0 <=? d)%Z) s) with false;
    [now rewrite andb_false_r|].
  symmetry. apply not_true_is_false. intros Hall.
  rewrite forallb_forall in Hall.
  apply List.Exists_exists in Hs. destruct Hs as [d [Hin Hd]].
  apply Hall in Hin. apply Z.leb_le in Hin. lia.
Qed.

Lemma of_nat_to_nat_dims (s : list Z) :
  Forall (fun d => (0 <= d)%Z) s -> map Z.of_nat (map Z.to_nat s) = s.
Proof.
  induction 1 as [|d s Hd Hs IH]; simpl; [reflexivity|].
  rewrite IH. f_equal. lia.
Qed.

Lemma ConstantInit_call_nonneg (v : F) (s : list Z) :
  Forall (fun d => (0 <= d)%Z) s -> length s <= NPY_MAXDIMS ->
  ConstantInit.call (ConstantInit.init v) s
  = Ok {| shape := map Z.to_nat s;
          data := repeat (f_mul f_one v)
                         (shape_size (map Z.to_nat s)) |}.
Proof.
  intros Hs Hn. unfold ConstantInit.call, np_ones.
  rewrite (check_dims_nonneg Hs Hn). simpl.
  unfold np_mul_scalar. simpl. now rewrite map_repeat.
Qed.

End ConstantFacts.

(** C3.  For a shape [(n, m)] of positive integers and a value,
    [ConstantInit(value).__call__(shape)] returns an array whose shape is
    the requested one, that holds [n * m] elements, every one equal to
    [value]: for every double [value] and for every real [value]. *)
Theorem ConstantInit_call_fills_with_value :
  (forall (value : B64.t) (n m : Z),
      valid_binary B64.prec B64.emax value = true ->
      (0 < n)%Z -> (0 < m)%Z ->
      exists a : ndarray B64.t,
        ConstantInit.call (ConstantInit.init value) [n; m] = Ok a
        /\ map Z.of_nat (shape a) = [n; m]
        /\ well_formed a
        /\ Forall (fun x => x = value) (data a))
  /\ (forall (value : R) (n m : Z),
      (0 < n)%Z -> (0 < m)%Z ->
      exists a : ndarray R,
        ConstantInit.call (ConstantInit.init value) [n; m] = Ok a
        /\ map Z.of_nat (shape a) = [n; m]
        /\ well_formed a
        /\ Forall (fun x => x = value) (data a)).
Proof.
  assert (Hdims : forall n m : Z, (0 < n)%Z -> (0 < m)%Z ->
                    Forall (fun d => (0 <= d)%Z) [n; m]).
  { intros n m Hn Hm. repeat constructor; lia. }
  assert (Htwo : forall n m : Z, length [n; m] <= NPY_MAXDIMS).
  { intros n m. unfold NPY_MAXDIMS. cbn. lia. }
  split.
  - intros value n m Hv Hn Hm.
    rewrite (ConstantInit_call_nonneg value (Hdims n m Hn Hm) (Htwo n m)).
    eexists. split; [reflexivity|]. cbn [shape data]. split; [|split].
    + apply of_nat_to_nat_dims. now apply Hdims.
    + unfold well_formed. cbn [shape data]. apply repeat_length.
    + apply List.Forall_forall. intros x Hx. apply repeat_spec in Hx.
      subst x. apply (mul_one_l value Hv).
  - intros value n m Hn Hm.
    rewrite (ConstantInit_call_nonneg value (Hdims n m Hn Hm) (Htwo n m)).
    eexists. split; [reflexivity|]. cbn [shape data]. split; [|split].
    + apply of_nat_to_nat_dims. now apply Hdims.
    + unfold well_formed. cbn [shape data]. apply repeat_length.
    + apply List.Forall_forall. intros x Hx. apply repeat_spec in Hx.
      subst x. cbn. lra.
Qed.

Lemma ConstantInit_call_fills_with_value_witness :
  exists a : ndarray B64.t,
    ConstantInit.call (ConstantInit.init (B64.lit 3 (-2))) [4%Z; 5%Z] = Ok a
    /\ map Z.of_nat (shape a) = [4%Z; 5%Z]
    /\ well_formed a
    /\ Forall (fun x => x = B64.lit 3 (-2)) (data a).
Proof.
  apply (proj1 ConstantInit_call_fills_with_value (B64.lit 3 (-2)) 4%Z 5%Z).
  - reflexivity.
  - lia.
  - lia.
Defined.

(** ** Shapes that differ *)

(** C4, counterexample.  [outputs] of shape [(2, 2)] and [targets] of
    shape [(1, 2)] have different shapes, and both [__call__] and [grad]
    return a value: the one row of [targets] is used for every row of
    [outputs]. *)
Lemma mismatched_shapes_broadcast :
  shape square_outputs <> shape row_targets
  /\ SumOfSquaredDiffsError.call square_outputs row_targets
     = Ok (B64.lit 2 0)
  /\ SumOfSquaredDiffsError.grad square_outputs row_targets
     = Ok {| shape := [2; 2];
             data := [B64.lit 0 0; B64.lit 0 0; B64.lit 1 0; B64.lit 1 0] |}.
Proof.
  split; [discriminate|]. split; vm_compute; reflexivity.
Qed.

(** C4, as the code behaves.  For [outputs] whose first dimension is at
    least 1 and [targets] of another shape: when the two shapes cannot be
    broadcast together, [__call__] and [grad] both raise numpy's
    [ValueError]; when they can, both return a value, and the gradient has
    the broadcast shape. *)
Theorem mismatched_shapes_raise_or_broadcast :
  forall (F : Type) (S : Scalar F) (outputs targets : ndarray F)
         (batch_size : nat) (dims : list nat),
    shape outputs = batch_size :: dims ->
    1 <= batch_size ->
    shape outputs <> shape targets ->
    match broadcast_shapes (shape outputs) (shape targets) with
    | None =>
        SumOfSquaredDiffsError.call outputs targets = Raise ValueError
        /\ SumOfSquaredDiffsError.grad outputs targets = Raise ValueError
    | Some s =>
        (exists v : F, SumOfSquaredDiffsError.call outputs targets = Ok v)
        /\ (exists g : ndarray F,
              SumOfSquaredDiffsError.grad outputs targets = Ok g
              /\ shape g = s)
    end.
Proof.
  intros F S outputs targets b dims Ho Hb _.
  unfold SumOfSquaredDiffsError.call, SumOfSquaredDiffsError.grad.
  rewrite Ho. cbn [tuple_index nth_error bind].
  unfold py_truediv.
  destruct (Z.eqb_spec (Z.of_nat b) 0) as [E|_]; [lia|].
  cbn [bind]. unfold np_sub. rewrite Ho.
  destruct (broadcast_shapes (b :: dims) (shape targets)) as [s|];
    cbn [bind].
  - split; eexists; [reflexivity|]. split; reflexivity.
  - split; reflexivity.
Qed.

Lemma mismatched_shapes_raise_or_broadcast_witness :
  (exists v : B64.t,
      SumOfSquaredDiffsError.call square_outputs row_targets = Ok v)
  /\ (exists g : ndarray B64.t,
        SumOfSquaredDiffsError.grad square_outputs row_targets = Ok g
        /\ shape g = [2; 2]).
Proof.
  apply (mismatched_shapes_raise_or_broadcast binary64
           square_outputs row_targets (batch_size := 2) (dims := [2])).
  - reflexivity.
  - lia.
  - discriminate.
Defined.

(** ** Shapes with one dimension *)

(** C5, counterexample.  Called with the shape [(3,)], [SqrtInit] and
    [KaimingInit] raise Python's [IndexError], the fault of indexing the
    tuple at [1], and no error of their own about the arity of the
    shape. *)
Lemma one_dimension_raises_IndexError :
  fst (SqrtInit.call (F := B64.t) (G := Z)
         {| SqrtInit.mean := 0; SqrtInit.rng := 0 |} [3%Z] {[ 0 := 0%Z ]})
  = Raise IndexError
  /\ fst (KaimingInit.call (F := B64.t) (G := Z)
            {| KaimingInit.mean := 0; KaimingInit.rng := 0 |} [3%Z]
            {[ 0 := 0%Z ]})
     = Raise IndexError.
Proof. split; reflexivity. Qed.

(** C5, as the code behaves.  Called with a shape of one dimension,
    [SqrtInit], [XavierInit], [XavierInitNormal] and [KaimingInit] raise
    [IndexError] from [shape[1]], and the generator is not touched. *)
Theorem one_dimension_IndexError_before_any_draw :
  forall (F G : Type) (S : Scalar F) (N : NumpyRandom F G) (d : Z)
         (h : heap G),
    (forall self : SqrtInit.t,
        SqrtInit.call self [d] h = (Raise IndexError, h))
    /\ (forall self : XavierInit.t,
        XavierInit.call self [d] h = (Raise IndexError, h))
    /\ (forall self : XavierInitNormal.t,
        XavierInitNormal.call self [d] h = (Raise IndexError, h))
    /\ (forall self : KaimingInit.t,
        KaimingInit.call self [d] h = (Raise IndexError, h)).
Proof.
  intros F G S N d h. repeat split; intros self; reflexivity.
Qed.

(** ** Construction *)

(** C9, counterexample.  [UniformInit(low=1.0, high=0.0)] and
    [NormalInit(mean=0.0, std=-1.0)] are constructed without an error. *)
Lemma invalid_parameters_are_accepted :
  fst (UniformInit.init (G := Z) (B64.lit 1 0) (B64.lit 0 0) None ∅)
  = Ok {| UniformInit.low := B64.lit 1 0;
          UniformInit.high := B64.lit 0 0;
          UniformInit.rng := 0 |}
  /\ fst (NormalInit.init (G := Z) (B64.lit 0 0) (B64.lit (-1) 0) None ∅)
     = Ok {| NormalInit.mean := B64.lit 0 0;
             NormalInit.std := B64.lit (-1) 0;
             NormalInit.rng := 0 |}.
Proof. split; vm_compute; reflexivity. Qed.

Section ConstructionFacts.

Context {F G : Type} `{Scalar F} `{NumpyRandom F G} `{MlpPackage}.

(** The constructors' [rng=None]: a generator that is given is kept,
    a missing one is a new object seeded with [DEFAULT_SEED]. *)
Lemma default_rng_spec (rng : option address) (h : heap G) :
  exists (r : address) (h' : heap G),
    default_rng rng h = (Ok r, h')
    /\ match rng with
       | Some r0 => r = r0 /\ h' = h
       | None => h !! r = None
                 /\ h' = <[r := RandomState_seed DEFAULT_SEED]> h
       end.
Proof.
  destruct rng as [r0|]; simpl.
  - exists r0, h. repeat split.
  - unfold new_RandomState. eexists _, _. split; [reflexivity|].
    split; [|reflexivity].
    apply (proj1 (not_elem_of_dom h _)). apply is_fresh.
Qed.

End ConstructionFacts.

(** C9, as the code behaves.  Constructing a [UniformInit] or a
    [NormalInit] never raises, whatever [low], [high], [mean] and [std]:
    the parameters are stored as they are given. *)
Theorem construction_stores_parameters_unchecked :
  forall (F G : Type) (S : Scalar F) (N : NumpyRandom F G) (P : MlpPackage)
         (x y : F) (rng : option address) (h : heap G),
    (exists (self : UniformInit.t F) (h' : heap G),
        UniformInit.init x y rng h = (Ok self, h')
        /\ UniformInit.low self = x /\ UniformInit.high self = y)
    /\ (exists (self : NormalInit.t F) (h' : heap G),
        NormalInit.init x y rng h = (Ok self, h')
        /\ NormalInit.mean self = x /\ NormalInit.std self = y).
Proof.
  intros F G S N P x y rng h.
  destruct (default_rng_spec rng h) as (r & h' & Hr & _).
  split.
  - unfold UniformInit.init, bindM. rewrite Hr.
    eexists _, _. split; [reflexivity|]. split; reflexivity.
  - unfold NormalInit.init, bindM. rewrite Hr.
    eexists _, _. split; [reflexivity|]. split; reflexivity.
Qed.

(** ** Generators on the heap *)

Section HeapFacts.

Context {F G : Type} `{Scalar F} `{NumpyRandom F G}.

Lemma acts_on_raise (r : address) (e : exception) :
  acts_on (F := F) r (fun g : G => (Raise e, g)) (lift (Raise e)).
Proof.
  intros h g Hg. unfold lift. cbn [fst snd].
  now rewrite insert_id.
Qed.

Lemma acts_on_sample (r : address) (step : G -> F * G) (shape : list Z) :
  acts_on r (sample_step step shape) (sample step r shape).
Proof.
  intros h g Hg. unfold sample, sample_step. rewrite Hg.
  destruct (check_dims shape) as [dims|e]; cbn [fst snd].
  - now destruct (draws step (shape_size dims) g) as [xs g'].
  - now rewrite insert_id.
Qed.

Lemma acts_on_uniform (r : address) (low high : F) (shape : list Z) :
  acts_on r (uniform_step low high shape)
    (RandomState_uniform r low high shape).
Proof.
  unfold uniform_step, RandomState_uniform.
  destruct (f_is_finite (f_sub high low)).
  - apply acts_on_sample.
  - apply acts_on_raise.
Qed.

Lemma acts_on_normal (r : address) (loc scale : F) (shape : list Z) :
  acts_on r (normal_step loc scale shape)
    (RandomState_normal r loc scale shape).
Proof.
  unfold normal_step, RandomState_normal.
  destruct (f_signbit scale).
  - apply acts_on_raise.
  - apply acts_on_sample.
Qed.

Lemma acts_on_after {A : Type} (r : address) (a : result A)
    (f : A -> G -> result (ndarray F) * G)
    (k : A -> M (G := G) (ndarray F)) :
  (forall x, acts_on r (f x) (k x)) ->
  acts_on r (after a f) (bindM (lift a) k).
Proof.
  intros Hk h g Hg. unfold bindM, lift, after.
  destruct a as [x|e].
  - now apply Hk.
  - cbn [fst snd]. now rewrite insert_id.
Qed.

(** Two generators at two addresses do not disturb each other: what
    each initialiser returns, call after call, is what its generator
    gives when it is used alone. *)
Lemma run_calls_alone (ra rb : address)
    (fa fb : list Z -> G -> result (ndarray F) * G)
    (ca cb : list Z -> M (G := G) (ndarray F)) :
  ra <> rb ->
  (forall shape, acts_on ra (fa shape) (ca shape)) ->
  (forall shape, acts_on rb (fb shape) (cb shape)) ->
  forall (schedule : list (who * list Z)) (h : heap G) (ga gb : G),
    h !! ra = Some ga -> h !! rb = Some gb ->
    results_of First (fst (run_calls ca cb schedule h))
    = alone fa (requests_of First schedule) ga
    /\ results_of Second (fst (run_calls ca cb schedule h))
       = alone fb (requests_of Second schedule) gb.
Proof.
  intros Hne Ha Hb schedule.
  induction schedule as [|[w shape] rest IH]; intros h ga gb Hga Hgb.
  - split; reflexivity.
  - cbn [run_calls]. destruct w.
    + rewrite (Ha shape h ga Hga).
      specialize (IH (<[ra := snd (fa shape ga)]> h)
                     (snd (fa shape ga)) gb).
      destruct (run_calls ca cb rest (<[ra := snd (fa shape ga)]> h))
        as [rs h2].
      destruct IH as [IH1 IH2].
      * apply lookup_insert_eq.
      * rewrite lookup_insert_ne by assumption. exact Hgb.
      * cbn [fst] in *. unfold results_of, requests_of in *.
        cbn [List.filter fst snd who_eqb map alone]. split; [f_equal|]; assumption.
    + rewrite (Hb shape h gb Hgb).
      specialize (IH (<[rb := snd (fb shape gb)]> h)
                     ga (snd (fb shape gb))).
      destruct (run_calls ca cb rest (<[rb := snd (fb shape gb)]> h))
        as [rs h2].
      destruct IH as [IH1 IH2].
      * rewrite lookup_insert_ne by congruence. exact Hga.
      * apply lookup_insert_eq.
      * cbn [fst] in *. unfold results_of, requests_of in *.
        cbn [List.filter fst snd who_eqb map alone]. split; [|f_equal]; assumption.
Qed.

(** Two initialisers that do the same to their generator, on two
    generators in the same state, return the same results for the same
    requests, however their calls are interleaved. *)
Lemma same_requests_same_results (ra rb : address)
    (f : list Z -> G -> result (ndarray F) * G)
    (ca cb : list Z -> M (G := G) (ndarray F))
    (schedule : list (who * list Z)) (h : heap G) (g : G) :
  ra <> rb ->
  (forall shape, acts_on ra (f shape) (ca shape)) ->
  (forall shape, acts_on rb (f shape) (cb shape)) ->
  h !! ra = Some g -> h !! rb = Some g ->
  requests_of First schedule = requests_of Second schedule ->
  results_of First (fst (run_calls ca cb schedule h))
  = results_of Second (fst (run_calls ca cb schedule h)).
Proof.
  intros Hne Ha Hb Hga Hgb Hreq.
  destruct (@run_calls_alone ra rb f f ca cb Hne Ha Hb schedule h g g
            Hga Hgb) as [H1 H2].
  rewrite H1, H2, Hreq. reflexivity.
Qed.

End HeapFacts.

Section InitialiserFacts.

Context {F G : Type} `{Scalar F} `{NumpyRandom F G} `{MlpPackage}.

(** Two generators created one after the other are two objects, both in
    the state of the seed. *)
Lemma fresh_twice (h : heap G) (s : G) :
  let r1 := fresh (dom h) in
  let h1 := <[r1 := s]> h in
  let r2 := fresh (dom h1) in
  r1 <> r2
  /\ <[r2 := s]> h1 !! r1 = Some s
  /\ <[r2 := s]> h1 !! r2 = Some s.
Proof.
  intros r1 h1 r2.
  assert (Hne : r1 <> r2).
  { intros E. apply (is_fresh (dom h1)). fold r2. rewrite <- E.
    unfold h1. rewrite dom_insert. apply elem_of_union_l.
    now apply elem_of_singleton. }
  split; [exact Hne|]. split.
  - rewrite lookup_insert_ne by congruence. apply lookup_insert_eq.
  - apply lookup_insert_eq.
Qed.

Lemma UniformInit_acts_on (self : UniformInit.t F) (shape : list Z) :
  acts_on (UniformInit.rng self)
    (uniform_step (UniformInit.low self) (UniformInit.high self) shape)
    (UniformInit.call self shape).
Proof. apply acts_on_uniform. Qed.

Lemma NormalInit_acts_on (self : NormalInit.t F) (shape : list Z) :
  acts_on (NormalInit.rng self)
    (normal_step (NormalInit.mean self) (NormalInit.std self) shape)
    (NormalInit.call self shape).
Proof. apply acts_on_normal. Qed.

Lemma SqrtInit_acts_on (self : SqrtInit.t) (shape : list Z) :
  acts_on (SqrtInit.rng self)
    (after (tuple_index shape 1)
       (fun s1 =>
          normal_step (f_of_int (SqrtInit.mean self))
            (f_div (f_of_int 1) (f_sqrt (f_of_int s1))) shape))
    (SqrtInit.call self shape).
Proof.
  apply acts_on_after. intros s1. apply acts_on_normal.
Qed.

Lemma XavierInit_acts_on (self : XavierInit.t) (shape : list Z) :
  acts_on (XavierInit.rng self)
    (after (let* b := XavierInit.bound shape in Ok (f_neg b))
       (fun lo =>
          after (XavierInit.bound shape)
            (fun hi => uniform_step lo hi shape)))
    (XavierInit.call self shape).
Proof.
  apply acts_on_after. intros lo.
  apply acts_on_after. intros hi. apply acts_on_uniform.
Qed.

Lemma XavierInitNormal_acts_on (self : XavierInitNormal.t)
    (shape : list Z) :
  acts_on (XavierInitNormal.rng self)
    (after (tuple_index shape 0)
       (fun s0 =>
          after (tuple_index shape 1)
            (fun s1 =>
               after (py_truediv 2 (s0 + s1))
                 (fun q =>
                    normal_step (f_of_int (XavierInitNormal.mean self))
                      (f_sqrt q) shape))))
    (XavierInitNormal.call self shape).
Proof.
  apply acts_on_after. intros s0.
  apply acts_on_after. intros s1.
  apply acts_on_after. intros q. apply acts_on_normal.
Qed.

Lemma KaimingInit_acts_on (self : KaimingInit.t) (shape : list Z) :
  acts_on (KaimingInit.rng self)
    (after (tuple_index shape 1)
       (fun s1 =>
          after (py_truediv 2 s1)
            (fun q =>
               normal_step (f_of_int (KaimingInit.mean self))
                 (f_sqrt q) shape)))
    (KaimingInit.call self shape).
Proof.
  apply acts_on_after. intros s1.
  apply acts_on_after. intros q. apply acts_on_normal.
Qed.

End InitialiserFacts.

(** Two objects constructed with [rng=None], one after the other: the
    construction equations give their fields and the heap. *)
Ltac two_defaults Ha Hb :=
  cbv [UniformInit.init NormalInit.init SqrtInit.init XavierInit.init
       XavierInitNormal.init KaimingInit.init
       bindM default_rng new_RandomState ret] in Ha, Hb;
  injection Ha as <- <-; injection Hb as <- <-.

Ltac at_self acts shape :=
  match goal with
  | |- acts_on _ _ (?call ?self shape) => exact (acts self shape)
  end.

Ltac apply_reproducible acts :=
  match goal with
  | Hne : _ <> _, H1 : _ !! _ = Some _, H2 : _ !! _ = Some _,
    Hreq : requests_of First _ = requests_of Second _ |- _ =>
      eapply same_requests_same_results;
      [ exact Hne
      | intros shape; at_self acts shape
      | intros shape; at_self acts shape
      | exact H1 | exact H2 | exact Hreq ]
  end.

(** C6.  Two initialisers of one stochastic kind ([UniformInit] with the
    same [low] and [high], [NormalInit] with the same [mean] and [std],
    [SqrtInit], [XavierInit], [XavierInitNormal], [KaimingInit]), each
    constructed without a generator, return the same arrays, failures
    included, when they are given the same sequence of shapes: each has
    a generator of its own, seeded with [DEFAULT_SEED], and the calls to
    one leave the generator of the other as it is. *)
Theorem default_initialisers_are_reproducible :
  forall (F G : Type) (S : Scalar F) (N : NumpyRandom F G) (P : MlpPackage),
    (forall low high : F,
        reproducible (UniformInit.init low high None) UniformInit.call)
    /\ (forall mean std : F,
        reproducible (NormalInit.init mean std None) NormalInit.call)
    /\ reproducible (SqrtInit.init None) SqrtInit.call
    /\ reproducible (XavierInit.init None) XavierInit.call
    /\ reproducible (XavierInitNormal.init None) XavierInitNormal.call
    /\ reproducible (KaimingInit.init None) KaimingInit.call.
Proof.
  intros F G S N P.
  repeat split; intros; intros h0 h1 h2 a b schedule Ha Hb Hreq;
    two_defaults Ha Hb;
    destruct (fresh_twice h0 (RandomState_seed DEFAULT_SEED))
      as (Hne & H1 & H2).
  - apply_reproducible UniformInit_acts_on.
  - apply_reproducible NormalInit_acts_on.
  - apply_reproducible SqrtInit_acts_on.
  - apply_reproducible XavierInit_acts_on.
  - apply_reproducible XavierInitNormal_acts_on.
  - apply_reproducible KaimingInit_acts_on.
Qed.

Lemma default_initialisers_are_reproducible_witness :
  let schedule :=
    [(First, [2; 2]%Z); (Second, [2; 2]%Z); (Second, [3]%Z); (First, [3]%Z)]
  in
  results_of First
    (fst (run_calls (UniformInit.call first_uniform)
            (UniformInit.call second_uniform) schedule heap_of_two))
  = results_of Second
      (fst (run_calls (UniformInit.call first_uniform)
              (UniformInit.call second_uniform) schedule heap_of_two)).
Proof.
  intros schedule.
  apply (proj1 (default_initialisers_are_reproducible
                  binary64 Counter.random Counter.package)
           (B64.lit 0 0) (B64.lit 1 0) ∅ heap_of_one heap_of_two).
  - reflexivity.
  - reflexivity.
  - reflexivity.
Defined.

(** ** Draws *)

Section DrawFacts.

Context {F G : Type} `{Scalar F} `{NumpyRandom F G}.

Lemma draws_length (step : G -> F * G) (n : nat) :
  forall g, length (fst (draws step n g)) = n.
Proof.
  induction n as [|n IH]; intros g; cbn [draws]; [reflexivity|].
  destruct (step g) as [x g1]. specialize (IH g1).
  destruct (draws step n g1) as [xs g2]. cbn [fst length] in *.
  now rewrite IH.
Qed.

Lemma draws_Forall (P : F -> Prop) (step : G -> F * G) (n : nat) :
  (forall g, P (fst (step g))) ->
  forall g, List.Forall P (fst (draws step n g)).
Proof.
  intros Hstep. induction n as [|n IH]; intros g; cbn [draws].
  - constructor.
  - specialize (Hstep g). destruct (step g) as [x g1]. specialize (IH g1).
    destruct (draws step n g1) as [xs g2]. cbn [fst] in *.
    now constructor.
Qed.

Lemma sample_allocated (step : G -> F * G) (r : address) (s : list Z)
    (h : heap G) (g : G) :
  h !! r = Some g ->
  List.Forall (fun d => (0 <= d)%Z) s ->
  length s <= NPY_MAXDIMS ->
  sample step r s h
  = (Ok {| shape := map Z.to_nat s;
           data := fst (draws step (shape_size (map Z.to_nat s)) g) |},
     <[r := snd (draws step (shape_size (map Z.to_nat s)) g)]> h).
Proof.
  intros Hg Hs Hn. unfold sample. rewrite Hg, (check_dims_nonneg Hs Hn).
  now destruct (draws step (shape_size (map Z.to_nat s)) g) as [xs g'].
Qed.

Lemma two_positive_dims (n m : Z) :
  (0 < n)%Z -> (0 < m)%Z -> List.Forall (fun d => (0 <= d)%Z) [n; m].
Proof. intros Hn Hm. repeat constructor; lia. Qed.

Lemma two_dims_allowed (n m : Z) : length [n; m] <= NPY_MAXDIMS.
Proof. unfold NPY_MAXDIMS. cbn. lia. Qed.

Lemma shape_size_two (n m : Z) :
  (0 < n)%Z -> (0 < m)%Z ->
  shape_size (map Z.to_nat [n; m]) = Z.to_nat (n * m).
Proof. intros Hn Hm. cbn. lia. Qed.

(** [XavierInit.__call__] on a generator that is there, for a shape of
    two positive dimensions. *)
Lemma XavierInit_call_two_dims (self : XavierInit.t) (fan_in fan_out : Z)
    (h : heap G) (g : G) :
  (0 < fan_in)%Z -> (0 < fan_out)%Z ->
  h !! XavierInit.rng self = Some g ->
  let b := f_sqrt (f_truediv 6 (fan_in + fan_out)) in
  f_is_finite (f_sub b (f_neg b)) = true ->
  let d := draws (fun g0 => rk_uniform g0 (f_neg b) b)
                 (Z.to_nat (fan_in * fan_out)) g in
  XavierInit.call self [fan_in; fan_out] h
  = (Ok {| shape := [Z.to_nat fan_in; Z.to_nat fan_out]; data := fst d |},
     <[XavierInit.rng self := snd d]> h).
Proof.
  intros Hi Ho Hg b Hf d.
  unfold XavierInit.call, XavierInit.bound, bindM, lift.
  cbn [tuple_index nth_error bind]. unfold py_truediv.
  destruct (Z.eqb_spec (fan_in + fan_out) 0) as [E|_]; [lia|].
  cbn [bind]. unfold RandomState_uniform. fold b. rewrite Hf.
  erewrite sample_allocated;
    [|exact Hg|apply two_positive_dims; assumption|apply two_dims_allowed].
  rewrite shape_size_two by assumption. reflexivity.
Qed.

Lemma XavierInit_within (self : XavierInit.t) (fan_in fan_out : Z)
    (h : heap G) (g : G) :
  uniform_within_bounds ->
  (0 < fan_in)%Z -> (0 < fan_out)%Z ->
  h !! XavierInit.rng self = Some g ->
  let b := f_sqrt (f_truediv 6 (fan_in + fan_out)) in
  f_le (f_neg b) b ->
  f_is_finite (f_sub b (f_neg b)) = true ->
  exists (a : ndarray F) (g' : G),
    XavierInit.call self [fan_in; fan_out] h
    = (Ok a, <[XavierInit.rng self := g']> h)
    /\ map Z.of_nat (shape a) = [fan_in; fan_out]
    /\ well_formed a
    /\ draws (fun g0 => rk_uniform g0 (f_neg b) b)
             (Z.to_nat (fan_in * fan_out)) g = (data a, g')
    /\ List.Forall (fun x => f_le (f_neg b) x /\ f_le x b) (data a).
Proof.
  intros Hu Hi Ho Hg b Hb Hf.
  rewrite XavierInit_call_two_dims with (g := g) by assumption. fold b.
  eexists _, _. split; [reflexivity|]. cbn [shape data].
  split; [cbn; f_equal; [|f_equal]; lia|]. split; [|split].
  - unfold well_formed. cbn [shape data].
    rewrite draws_length. cbn. lia.
  - now destruct (draws _ _ g).
  - apply draws_Forall. intros g0. now apply Hu.
Qed.

End DrawFacts.

(** C7.  On a generator whose uniform draws lie between the bounds they
    are asked for, and for a shape [(fan_in, fan_out)] of positive
    integers, [XavierInit.__call__] returns an array of that shape whose
    elements are [fan_in * fan_out] successive uniform draws with
    [low = -sqrt(6 / (fan_in + fan_out))] and
    [high = sqrt(6 / (fan_in + fan_out))], every one of them between the
    two bounds, in double precision and over the reals. *)
Theorem XavierInit_elements_within_bound :
  (forall (G : Type) (N : NumpyRandom B64.t G) (self : XavierInit.t)
          (fan_in fan_out : Z) (h : heap G) (g : G),
      uniform_within_bounds ->
      (0 < fan_in)%Z -> (0 < fan_out)%Z ->
      h !! XavierInit.rng self = Some g ->
      let b := B64.sqrt (B64.truediv 6 (fan_in + fan_out)) in
      exists (a : ndarray B64.t) (g' : G),
        XavierInit.call self [fan_in; fan_out] h
        = (Ok a, <[XavierInit.rng self := g']> h)
        /\ map Z.of_nat (shape a) = [fan_in; fan_out]
        /\ well_formed a
        /\ draws (fun g0 => rk_uniform g0 (B64.neg b) b)
                 (Z.to_nat (fan_in * fan_out)) g = (data a, g')
        /\ List.Forall
             (fun x => B64.leb (B64.neg b) x = true /\ B64.leb x b = true)
             (data a))
  /\ (forall (G : Type) (N : NumpyRandom R G) (self : XavierInit.t)
          (fan_in fan_out : Z) (h : heap G) (g : G),
      uniform_within_bounds ->
      (0 < fan_in)%Z -> (0 < fan_out)%Z ->
      h !! XavierInit.rng self = Some g ->
      let b := sqrt (6 / IZR (fan_in + fan_out)) in
      exists (a : ndarray R) (g' : G),
        XavierInit.call self [fan_in; fan_out] h
        = (Ok a, <[XavierInit.rng self := g']> h)
        /\ map Z.of_nat (shape a) = [fan_in; fan_out]
        /\ well_formed a
        /\ draws (fun g0 => rk_uniform g0 (- b)%R b)
                 (Z.to_nat (fan_in * fan_out)) g = (data a, g')
        /\ List.Forall (fun x => (- b <= x <= b)%R) (data a)).
Proof.
  split.
  - intros G N self fan_in fan_out h g Hu Hi Ho Hg b.
    assert (Hb : B64.leb (B64.neg b) b = true)
      by (apply neg_le_self, sqrt_nonneg, truediv_nonneg; lia).
    assert (Hf : B64.is_finite (B64.sub b (B64.neg b)) = true)
      by (apply xavier_range_finite; lia).
    exact (@XavierInit_within B64.t G binary64 N self fan_in fan_out h g
             Hu Hi Ho Hg Hb Hf).
  - intros G N self fan_in fan_out h g Hu Hi Ho Hg b.
    assert (Hb : (- b <= b)%R)
      by (pose proof (sqrt_pos (6 / IZR (fan_in + fan_out))); unfold b; lra).
    exact (@XavierInit_within R G exact N self fan_in fan_out h g
             Hu Hi Ho Hg Hb eq_refl).
Qed.

Lemma Counter_uniform_within_bounds :
  uniform_within_bounds (F := B64.t) (G := Z).
Proof.
  intros g low high Hle. cbn in *.
  destruct (leb_refl low high Hle) as [Hl Hh].
  destruct (Z.even g); split; assumption.
Qed.

Lemma XavierInit_elements_within_bound_witness :
  let b := B64.sqrt (B64.truediv 6 (256 + 64)) in
  exists (a : ndarray B64.t) (g' : Z),
    XavierInit.call {| XavierInit.rng := 0 |} [256; 64]%Z heap_of_one
    = (Ok a, <[0 := g']> heap_of_one)
    /\ map Z.of_nat (shape a) = [256; 64]%Z
    /\ well_formed a
    /\ draws (fun g0 => rk_uniform g0 (B64.neg b) b)
             (Z.to_nat (256 * 64)) 123456%Z = (data a, g')
    /\ List.Forall
         (fun x => B64.leb (B64.neg b) x = true /\ B64.leb x b = true)
         (data a).
Proof.
  apply (proj1 XavierInit_elements_within_bound Z Counter.random
           {| XavierInit.rng := 0 |} 256%Z 64%Z heap_of_one 123456%Z).
  - exact Counter_uniform_within_bounds.
  - lia.
  - lia.
  - reflexivity.
Defined.

(** ** SqrtInit *)

Section SqrtFacts.

Context {F G : Type} `{Scalar F} `{NumpyRandom F G} `{MlpPackage}.

Lemma SqrtInit_init_mean (rng0 : option address) (h0 h1 : heap G)
    (self : SqrtInit.t) :
  SqrtInit.init rng0 h0 = (Ok self, h1) -> SqrtInit.mean self = 0%Z.
Proof.
  unfold SqrtInit.init, bindM.
  destruct (default_rng_spec rng0 h0) as (r & h' & Hr & _).
  rewrite Hr. unfold ret. intros E. injection E as <- _. reflexivity.
Qed.

Lemma SqrtInit_call_two_dims (self : SqrtInit.t) (n m : Z)
    (h : heap G) (g : G) :
  SqrtInit.mean self = 0%Z ->
  (0 < n)%Z -> (0 < m)%Z ->
  h !! SqrtInit.rng self = Some g ->
  let scale := f_div (f_of_int 1) (f_sqrt (f_of_int m)) in
  f_signbit scale = false ->
  exists (a : ndarray F) (g' : G),
    SqrtInit.call self [n; m] h = (Ok a, <[SqrtInit.rng self := g']> h)
    /\ map Z.of_nat (shape a) = [n; m]
    /\ draws (fun g0 => rk_normal g0 (f_of_int 0) scale)
             (Z.to_nat (n * m)) g = (data a, g').
Proof.
  intros Hmean Hn Hm Hg scale Hs.
  unfold SqrtInit.call, bindM, lift.
  cbn [tuple_index nth_error]. fold scale.
  unfold RandomState_normal. rewrite Hs, Hmean.
  erewrite sample_allocated;
    [|exact Hg|apply two_positive_dims; assumption|apply two_dims_allowed].
  rewrite shape_size_two by assumption.
  eexists _, _. split; [reflexivity|]. cbn [shape data]. split.
  - cbn. f_equal; [|f_equal]; lia.
  - now destruct (draws _ _ g).
Qed.

End SqrtFacts.

(** C8.  A [SqrtInit], however it was constructed, called with a shape
    [(n, m)] of positive integers, returns [n * m] successive draws of
    the generator's normal sampler with [loc = 0] and
    [scale = 1 / sqrt(m)], the second dimension of the shape, in double
    precision and over the reals; for the shape [(4, 16)] the scale is
    the double [0.25], where the first dimension would give [0.5]. *)
Theorem SqrtInit_draws_normal_with_inverse_sqrt_of_second_dim :
  (forall (G : Type) (N : NumpyRandom B64.t G) (P : MlpPackage)
          (rng0 : option address) (h0 h1 : heap G) (self : SqrtInit.t)
          (n m : Z) (h : heap G) (g : G),
      SqrtInit.init rng0 h0 = (Ok self, h1) ->
      (0 < n)%Z -> (0 < m)%Z ->
      h !! SqrtInit.rng self = Some g ->
      let scale := B64.div (B64.of_int 1) (B64.sqrt (B64.of_int m)) in
      exists (a : ndarray B64.t) (g' : G),
        SqrtInit.call self [n; m] h = (Ok a, <[SqrtInit.rng self := g']> h)
        /\ map Z.of_nat (shape a) = [n; m]
        /\ draws (fun g0 => rk_normal g0 (B64.of_int 0) scale)
                 (Z.to_nat (n * m)) g = (data a, g'))
  /\ (forall (G : Type) (N : NumpyRandom R G) (P : MlpPackage)
          (rng0 : option address) (h0 h1 : heap G) (self : SqrtInit.t)
          (n m : Z) (h : heap G) (g : G),
      SqrtInit.init rng0 h0 = (Ok self, h1) ->
      (0 < n)%Z -> (0 < m)%Z ->
      h !! SqrtInit.rng self = Some g ->
      let scale := (1 / sqrt (IZR m))%R in
      exists (a : ndarray R) (g' : G),
        SqrtInit.call self [n; m] h = (Ok a, <[SqrtInit.rng self := g']> h)
        /\ map Z.of_nat (shape a) = [n; m]
        /\ draws (fun g0 => rk_normal g0 0%R scale)
                 (Z.to_nat (n * m)) g = (data a, g'))
  /\ B64.div (B64.of_int 1) (B64.sqrt (B64.of_int 16)) = B64.lit 1 (-2)
  /\ B64.div (B64.of_int 1) (B64.sqrt (B64.of_int 4)) = B64.lit 1 (-1).
Proof.
  split; [|split; [|split; vm_compute; reflexivity]].
  - intros G N P rng0 h0 h1 self n m h g Hinit Hn Hm Hg scale.
    assert (Hs : B64.signbit scale = false).
    { apply div_one_nonneg. apply sqrt_nonneg. now apply of_int_pos_nonneg. }
    exact (@SqrtInit_call_two_dims B64.t G binary64 N self n m h g
             (SqrtInit_init_mean rng0 h0 Hinit) Hn Hm Hg Hs).
  - intros G N P rng0 h0 h1 self n m h g Hinit Hn Hm Hg scale.
    assert (Hs : f_signbit (F := R) scale = false).
    { cbn. destruct (Rlt_dec scale 0) as [Hlt|_]; [|reflexivity].
      assert (0 < sqrt (IZR m))%R
        by (apply sqrt_lt_R0, IZR_lt; lia).
      assert (0 < scale)%R
        by (unfold scale; apply Rdiv_lt_0_compat; lra).
      lra. }
    exact (@SqrtInit_call_two_dims R G exact N self n m h g
             (SqrtInit_init_mean rng0 h0 Hinit) Hn Hm Hg Hs).
Qed.

Lemma SqrtInit_draws_normal_with_inverse_sqrt_of_second_dim_witness :
  let scale := B64.div (B64.of_int 1) (B64.sqrt (B64.of_int 16)) in
  exists (a : ndarray B64.t) (g' : Z),
    SqrtInit.call {| SqrtInit.mean := 0; SqrtInit.rng := 0 |} [4; 16]%Z
      heap_of_one
    = (Ok a, <[0 := g']> heap_of_one)
    /\ map Z.of_nat (shape a) = [4; 16]%Z
    /\ draws (fun g0 => rk_normal g0 (B64.of_int 0) scale)
             (Z.to_nat (4 * 16)) 123456%Z = (data a, g').
Proof.
  apply (proj1 SqrtInit_draws_normal_with_inverse_sqrt_of_second_dim
           Z Counter.random Counter.package None ∅ heap_of_one
           {| SqrtInit.mean := 0; SqrtInit.rng := 0 |} 4%Z 16%Z
           heap_of_one 123456%Z).
  - reflexivity.
  - lia.
  - lia.
  - reflexivity.
Defined.

(** ** The sign of the error *)

(** C10, counterexample.  In double precision the output [2^-600] and
    the target [0.0] differ, and the error is [0.0]: the square of their
    difference is below the smallest double and rounds to zero. *)
Lemma underflow_gives_zero_error :
  shape tiny_outputs = shape zero_targets
  /\ SumOfSquaredDiffsError.call tiny_outputs zero_targets
     = Ok (B64.lit 0 0)
  /\ ~ np_all_equal tiny_outputs zero_targets.
Proof.
  split; [reflexivity|]. split; [vm_compute; reflexivity|].
  intros [_ Heq]. inversion Heq as [|x y lo lt Hxy _]; subst.
  vm_compute in Hxy. discriminate.
Qed.

Section ExactSign.

Open Scope R_scope.

Lemma elementwise_Rminus_zero (lo lt : list R) :
  length lo = length lt ->
  List.Forall (fun x => x = 0) (elementwise Rminus lo lt)
  <-> Forall2 eq lo lt.
Proof.
  revert lt. unfold elementwise.
  induction lo as [|o lo IH]; intros [|t lt] Hlen; simpl in *;
    try discriminate.
  - split; constructor.
  - injection Hlen as Hlen. specialize (IH lt Hlen). split.
    + intros Hall. inversion Hall as [|? ? Hx Hl]; subst.
      constructor; [lra|]. now apply IH.
    + intros Hall. inversion Hall as [|? ? ? ? Hx Hl]; subst.
      constructor; [lra|]. now apply IH.
Qed.

Lemma call_exact_sign (outputs targets : ndarray R) (b d : nat) :
  shape outputs = [b; d] -> shape targets = [b; d] ->
  well_formed outputs -> well_formed targets -> (1 <= b)%nat ->
  exists v : R,
    SumOfSquaredDiffsError.call outputs targets = Ok v
    /\ 0 <= v
    /\ (v = 0 <-> np_all_equal outputs targets).
Proof.
  intros Ho Ht Wo Wt Hb.
  rewrite (call_same_shape_exact Ho Ht Wo Wt Hb).
  eexists. split; [reflexivity|].
  unfold half_mean_squared_diffs.
  rewrite (squared_diffs_positions Ho Ht Wo Wt). cbn [f_mul f_truediv f_half f_sub exact].
  set (l := elementwise Rminus (data outputs) (data targets)).
  pose proof (sum_squares_nonneg l) as Hs.
  assert (Hc : 0 < IZR 1 / IZR (Z.of_nat b) * (1 / 2)).
  { assert (1 <= IZR (Z.of_nat b)) by (apply IZR_le; lia).
    apply Rmult_lt_0_compat; [apply Rdiv_lt_0_compat|]; lra. }
  assert (Hlen : length (data outputs) = length (data targets)).
  { unfold well_formed in Wo, Wt. rewrite Ho in Wo. rewrite Ht in Wt.
    congruence. }
  split; [nra|].
  unfold np_all_equal. cbn [f_eq exact].
  rewrite <- (elementwise_Rminus_zero _ _ Hlen). fold l.
  rewrite <- sum_squares_zero. split.
  - intros Hv. split; [congruence|]. nra.
  - intros [_ Hz]. rewrite Hz. lra.
Qed.

End ExactSign.

Lemma call_double_sign (outputs targets : ndarray B64.t) (b d : nat) :
  shape outputs = [b; d] -> shape targets = [b; d] ->
  well_formed outputs -> well_formed targets -> 1 <= b ->
  exists v : B64.t,
    SumOfSquaredDiffsError.call outputs targets = Ok v
    /\ (B64.is_nan v = true \/ B64.leb (B64.lit 0 0) v = true)
    /\ (List.Forall (fun x => B64.is_finite x = true) (data outputs) ->
        np_all_equal outputs targets ->
        v = B64.lit 0 0).
Proof.
  intros Ho Ht Wo Wt Hb.
  rewrite (call_same_shape Ho Ht Wo Wt Hb).
  eexists. split; [reflexivity|].
  unfold half_mean_squared_diffs.
  rewrite (squared_diffs_positions Ho Ht Wo Wt).
  cbn [f_mul f_truediv f_half f_sub binary64].
  destruct (@scale_finite (Z.of_nat b) ltac:(lia)) as [Hfin Hsign].
  split.
  - apply signbit_false_not_negative, mul_signbit; [exact Hsign|].
    apply sum_signbit.
    apply List.Forall_forall. intros x Hx. apply in_map_iff in Hx.
    destruct Hx as (y & <- & _). apply mul_self_signbit.
  - intros Hf [_ Heq]. cbn [f_eq binary64] in Heq.
    rewrite (sum_zeros (equal_finite_squares Hf Heq)).
    apply mul_finite_zero; assumption.
Qed.

(** C10, as the code behaves.  For arrays [outputs] and [targets] of
    one shape [(batch_size, output_dim)] with [batch_size >= 1]: over
    the reals the error is not negative and is 0 exactly when
    [outputs == targets]; in double precision the error is never below
    0 (it is at least 0, or NaN), and it is [0.0] when
    [outputs == targets] and the outputs are finite. *)
Theorem call_sign_and_zero :
  (forall (outputs targets : ndarray R) (batch_size output_dim : nat),
      shape outputs = [batch_size; output_dim] ->
      shape targets = [batch_size; output_dim] ->
      well_formed outputs -> well_formed targets ->
      1 <= batch_size ->
      exists v : R,
        SumOfSquaredDiffsError.call outputs targets = Ok v
        /\ (0 <= v)%R
        /\ (v = 0%R <-> np_all_equal outputs targets))
  /\ (forall (outputs targets : ndarray B64.t)
             (batch_size output_dim : nat),
      shape outputs = [batch_size; output_dim] ->
      shape targets = [batch_size; output_dim] ->
      well_formed outputs -> well_formed targets ->
      1 <= batch_size ->
      exists v : B64.t,
        SumOfSquaredDiffsError.call outputs targets = Ok v
        /\ (B64.is_nan v = true \/ B64.leb (B64.lit 0 0) v = true)
        /\ (List.Forall (fun x => B64.is_finite x = true) (data outputs) ->
            np_all_equal outputs targets ->
            v = B64.lit 0 0)).
Proof.
  split.
  - intros outputs targets b d. apply call_exact_sign.
  - intros outputs targets b d. apply call_double_sign.
Qed.

Lemma call_sign_and_zero_witness :
  exists v : B64.t,
    SumOfSquaredDiffsError.call scenario_outputs scenario_targets = Ok v
    /\ (B64.is_nan v = true \/ B64.leb (B64.lit 0 0) v = true)
    /\ (List.Forall (fun x => B64.is_finite x = true)
          (data scenario_outputs) ->
        np_all_equal scenario_outputs scenario_targets ->
        v = B64.lit 0 0).
Proof.
  apply (proj2 call_sign_and_zero scenario_outputs scenario_targets 1 2).
  - reflexivity.
  - reflexivity.
  - reflexivity.
  - reflexivity.
  - lia.
Defined.

(** * Further properties *)

(** ** SumOfSquaredDiffsError on other inputs *)

Section AnyRank.

Context {F : Type} `{Scalar F}.

Lemma call_grad_any_rank (outputs targets : ndarray F) (b : nat)
    (dims : list nat) :
  shape outputs = b :: dims -> shape targets = shape outputs ->
  well_formed outputs -> well_formed targets -> 1 <= b ->
  SumOfSquaredDiffsError.call outputs targets
  = Ok (f_mul (f_mul (f_truediv 1 (Z.of_nat b)) f_half)
              (sum_squared_diffs (data outputs) (data targets)))
  /\ SumOfSquaredDiffsError.grad outputs targets
     = Ok {| shape := shape outputs;
             data := map (f_mul (f_truediv 1 (Z.of_nat b)))
                         (elementwise f_sub (data outputs) (data targets)) |}.
Proof.
  intros Ho Ht Wo Wt Hb.
  unfold SumOfSquaredDiffsError.call, SumOfSquaredDiffsError.grad.
  rewrite Ho. cbn [tuple_index nth_error bind]. unfold py_truediv.
  destruct (Z.eqb_spec (Z.of_nat b) 0) as [E|_]; [lia|]. cbn [bind].
  rewrite <- Ho. rewrite np_sub_same_shape by congruence.
  cbn [bind]. split; reflexivity.
Qed.

Lemma flatten_rows_shape (a : ndarray F) (b : nat) (dims : list nat) :
  shape a = b :: dims ->
  shape (flatten_rows a) = [b; shape_size dims]
  /\ data (flatten_rows a) = data a.
Proof. intros Ha. unfold flatten_rows. rewrite Ha. split; reflexivity. Qed.

Lemma flatten_rows_well_formed (a : ndarray F) (b : nat)
    (dims : list nat) :
  shape a = b :: dims -> well_formed a -> well_formed (flatten_rows a).
Proof.
  intros Ha Wa. destruct (@flatten_rows_shape a b dims Ha) as [Hs Hd].
  unfold well_formed in *. rewrite Hs, Hd, Wa, Ha.
  unfold shape_size. cbn [fold_right]. now rewrite Nat.mul_1_r.
Qed.

(** Only the first dimension is averaged over: the dimensions after the
    first count as one. *)
Lemma call_grad_flatten_rows (outputs targets : ndarray F) (b : nat)
    (dims : list nat) :
  shape outputs = b :: dims -> shape targets = shape outputs ->
  well_formed outputs -> well_formed targets -> 1 <= b ->
  SumOfSquaredDiffsError.call outputs targets
  = SumOfSquaredDiffsError.call (flatten_rows outputs)
                                (flatten_rows targets)
  /\ exists g : ndarray F,
       SumOfSquaredDiffsError.grad outputs targets = Ok g
       /\ shape g = shape outputs
       /\ well_formed g
       /\ SumOfSquaredDiffsError.grad (flatten_rows outputs)
                                      (flatten_rows targets)
          = Ok (flatten_rows g).
Proof.
  intros Ho Ht Wo Wt Hb.
  assert (Ht' : shape targets = b :: dims) by congruence.
  destruct (@flatten_rows_shape outputs b dims Ho) as [Hso Hdo].
  destruct (@flatten_rows_shape targets b dims Ht') as [Hst Hdt].
  pose proof (@flatten_rows_well_formed outputs b dims Ho Wo) as Wfo.
  pose proof (@flatten_rows_well_formed targets b dims Ht' Wt) as Wft.
  destruct (@call_grad_any_rank outputs targets b dims Ho Ht Wo Wt Hb)
    as [Hc Hg].
  destruct (@call_grad_any_rank (flatten_rows outputs)
              (flatten_rows targets) b [shape_size dims] Hso
              ltac:(congruence) Wfo Wft Hb) as [Hc' Hg'].
  split.
  - rewrite Hc, Hc', Hdo, Hdt. reflexivity.
  - eexists. split; [exact Hg|]. split; [reflexivity|]. split.
    + unfold well_formed in *. cbn [shape data].
      rewrite length_map, length_elementwise, <- Wo.
      rewrite Wo, Wt, Ht. lia.
    + rewrite Hg', Hdo, Hdt, Hso. unfold flatten_rows.
      cbn [shape data]. now rewrite Ho.
Qed.

End AnyRank.

(** X1.  Only the first dimension is averaged over.  For arrays of one
    shape of any number of dimensions (at least one) whose first
    dimension is at least 1, [__call__] and [grad] treat the dimensions
    after the first as one: the error is the error of the two arrays
    reshaped to [(shape[0], -1)], and the gradient, which has the shape
    of [outputs], is, reshaped in the same way, the gradient of the
    reshaped arrays.  For outputs [[[[1, 2]], [[3, 4]]]] and targets
    [[[[1, 0]], [[3, 2]]]] of shape [(2, 1, 2)] the error is [2.0],
    half the sum [8.0] of the squared differences over the first
    dimension, 2. *)
Theorem trailing_dimensions_count_as_one :
  (forall (F : Type) (S : Scalar F) (outputs targets : ndarray F)
          (batch_size : nat) (dims : list nat),
      shape outputs = batch_size :: dims ->
      shape targets = shape outputs ->
      well_formed outputs -> well_formed targets ->
      1 <= batch_size ->
      SumOfSquaredDiffsError.call outputs targets
      = SumOfSquaredDiffsError.call (flatten_rows outputs)
                                    (flatten_rows targets)
      /\ exists g : ndarray F,
           SumOfSquaredDiffsError.grad outputs targets = Ok g
           /\ shape g = shape outputs
           /\ well_formed g
           /\ SumOfSquaredDiffsError.grad (flatten_rows outputs)
                                          (flatten_rows targets)
              = Ok (flatten_rows g))
  /\ SumOfSquaredDiffsError.call cube_outputs cube_targets
     = Ok (B64.lit 2 0).
Proof.
  split.
  - intros F S outputs targets b dims. apply call_grad_flatten_rows.
  - vm_compute. reflexivity.
Qed.

Lemma trailing_dimensions_count_as_one_witness :
  SumOfSquaredDiffsError.call cube_outputs cube_targets
  = SumOfSquaredDiffsError.call (flatten_rows cube_outputs)
                                (flatten_rows cube_targets)
  /\ exists g : ndarray B64.t,
       SumOfSquaredDiffsError.grad cube_outputs cube_targets = Ok g
       /\ shape g = shape cube_outputs
       /\ well_formed g
       /\ SumOfSquaredDiffsError.grad (flatten_rows cube_outputs)
                                      (flatten_rows cube_targets)
          = Ok (flatten_rows g).
Proof.
  apply (proj1 trailing_dimensions_count_as_one B64.t binary64
           cube_outputs cube_targets 2 [1; 2]).
  - reflexivity.
  - reflexivity.
  - reflexivity.
  - reflexivity.
  - lia.
Defined.

(** X2.  On an empty batch (first dimension 0) [__call__] and [grad]
    raise [ZeroDivisionError], and on an array without dimensions they
    raise [IndexError], whatever the targets are: [1 / outputs.shape[0]]
    is evaluated before the difference. *)
Theorem empty_batch_raises_before_the_difference :
  forall (F : Type) (S : Scalar F) (outputs targets : ndarray F),
    (forall dims : list nat,
        shape outputs = 0 :: dims ->
        SumOfSquaredDiffsError.call outputs targets = Raise ZeroDivisionError
        /\ SumOfSquaredDiffsError.grad outputs targets
           = Raise ZeroDivisionError)
    /\ (shape outputs = [] ->
        SumOfSquaredDiffsError.call outputs targets = Raise IndexError
        /\ SumOfSquaredDiffsError.grad outputs targets = Raise IndexError).
Proof.
  intros F S outputs targets.
  unfold SumOfSquaredDiffsError.call, SumOfSquaredDiffsError.grad.
  split; [intros dims Ho|intros Ho]; rewrite Ho; split; reflexivity.
Qed.

Lemma empty_batch_raises_before_the_difference_witness :
  SumOfSquaredDiffsError.call empty_batch row_targets
  = Raise ZeroDivisionError
  /\ SumOfSquaredDiffsError.grad empty_batch row_targets
     = Raise ZeroDivisionError.
Proof.
  apply (proj1 (@empty_batch_raises_before_the_difference B64.t binary64
                  empty_batch row_targets) [3]).
  reflexivity.
Defined.

(** ** More double precision arithmetic *)

Section DoubleSquares.

Local Open Scope Z_scope.

(** *** Squares do not see the sign *)

Lemma mul_self_abs (z : B64.t) :
  B64.mul z z = B64.mul (SFabs z) (SFabs z).
Proof. destruct z as [s|s| |s m e]; try reflexivity; now destruct s. Qed.

Lemma round_aux_abs (s s' : bool) (m e : Z) (l : location) :
  SFabs (binary_round_aux B64.prec B64.emax s m e l)
  = SFabs (binary_round_aux B64.prec B64.emax s' m e l).
Proof.
  unfold binary_round_aux.
  destruct (shr_fexp B64.prec B64.emax m e l) as [mrs' e'].
  destruct (shr_fexp B64.prec B64.emax _ e' loc_Exact) as [mrs'' e''].
  destruct (shr_m mrs'') as [|p|p]; try reflexivity.
  destruct (e'' <=? B64.emax - B64.prec); reflexivity.
Qed.

Lemma normalize_opp_abs (d e : Z) :
  SFabs (binary_normalize B64.prec B64.emax d e false)
  = SFabs (binary_normalize B64.prec B64.emax (- d) e false).
Proof.
  destruct d as [|p|p]; [reflexivity| |].
  - change (- Z.pos p) with (Z.neg p). cbn [binary_normalize].
    unfold binary_round. destruct (shl_align p e _) as [mz ez].
    apply round_aux_abs.
  - change (- Z.neg p) with (Z.pos p). cbn [binary_normalize].
    unfold binary_round. destruct (shl_align p e _) as [mz ez].
    apply round_aux_abs.
Qed.

Lemma sub_abs_comm (x y : B64.t) :
  SFabs (B64.sub x y) = SFabs (B64.sub y x).
Proof.
  destruct x as [s|s| |s m e], y as [s'|s'| |s' m' e'];
    try reflexivity; try (destruct s, s'; reflexivity).
  unfold B64.sub, SFsub. rewrite (Z.min_comm e' e).
  rewrite normalize_opp_abs. f_equal. f_equal. lia.
Qed.

Lemma square_sub_comm (x y : B64.t) :
  B64.mul (B64.sub x y) (B64.sub x y) = B64.mul (B64.sub y x) (B64.sub y x).
Proof.
  rewrite (mul_self_abs (B64.sub x y)), (mul_self_abs (B64.sub y x)).
  now rewrite sub_abs_comm.
Qed.

(** *** A finite double minus itself *)

Lemma eqb_refl_finite (x : B64.t) :
  B64.is_finite x = true -> B64.eqb x x = true.
Proof.
  destruct x as [s|s| |s m e]; try discriminate; intros _; [reflexivity|].
  unfold B64.eqb, SFeqb, SFcompare.
  destruct s; now rewrite Z.compare_refl, Pos.compare_cont_refl.
Qed.

Lemma sub_self (x : B64.t) :
  B64.is_finite x = true -> B64.sub x x = S754_zero false.
Proof.
  destruct x as [s|s| |s m e]; try discriminate; intros _.
  - now destruct s.
  - unfold B64.sub, SFsub. now rewrite Z.sub_diag.
Qed.

(** *** NaN *)

Lemma sub_nan_l (y : B64.t) : B64.sub S754_nan y = S754_nan.
Proof. reflexivity. Qed.

Lemma sub_nan_r (x : B64.t) : B64.sub x S754_nan = S754_nan.
Proof. now destruct x. Qed.

Lemma add_nan_r (x : B64.t) : B64.add x S754_nan = S754_nan.
Proof. now destruct x. Qed.

Lemma mul_nan_r (x : B64.t) : B64.mul x S754_nan = S754_nan.
Proof. now destruct x. Qed.

(** However numpy groups the additions, a NaN among the elements makes
    their sum NaN. *)
Lemma sum_with_nan (l : list B64.t) :
  In S754_nan l -> sum_of l = S754_nan.
Proof.
  intros Hin.
  apply (@is_sum_absorbing B64.t binary64 (fun x => x = S754_nan))
    with (l := l).
  - intros x y [-> | ->]; [reflexivity|apply add_nan_r].
  - apply is_sum_sum_of.
  - now exists S754_nan.
Qed.

End DoubleSquares.

Section ExactSquares.

Open Scope R_scope.

Lemma squares_comm_exact (lo lt : list R) :
  map (fun x => x * x) (elementwise Rminus lo lt)
  = map (fun x => x * x) (elementwise Rminus lt lo).
Proof.
  revert lt. unfold elementwise.
  induction lo as [|o lo IH]; intros [|t lt]; simpl; try reflexivity.
  rewrite IH. f_equal. ring.
Qed.

Lemma self_diffs_exact (lo : list R) :
  elementwise Rminus lo lo = repeat 0 (length lo).
Proof.
  unfold elementwise. induction lo as [|o lo IH]; simpl; [reflexivity|].
  rewrite IH. f_equal. ring.
Qed.

Lemma sum_squares_of_zeros (n : nat) :
  sum_list (map (fun x => x * x) (repeat 0 n)) = 0.
Proof.
  apply sum_squares_zero. apply List.Forall_forall.
  intros x Hx. now apply repeat_spec in Hx.
Qed.

End ExactSquares.

Lemma squares_comm_double (lo lt : list B64.t) :
  map (fun x => B64.mul x x) (elementwise B64.sub lo lt)
  = map (fun x => B64.mul x x) (elementwise B64.sub lt lo).
Proof.
  revert lt. unfold elementwise.
  induction lo as [|o lo IH]; intros [|t lt]; simpl; try reflexivity.
  rewrite IH. f_equal. apply square_sub_comm.
Qed.

Lemma self_diffs_double (lo : list B64.t) :
  List.Forall (fun x => B64.is_finite x = true) lo ->
  elementwise B64.sub lo lo = repeat (S754_zero false) (length lo).
Proof.
  unfold elementwise. induction 1 as [|o lo Ho _ IH]; simpl; [reflexivity|].
  rewrite IH. f_equal. now apply sub_self.
Qed.

Lemma Forall2_eqb_refl (lo : list B64.t) :
  List.Forall (fun x => B64.is_finite x = true) lo ->
  Forall2 (fun x y => B64.eqb x y = true) lo lo.
Proof.
  induction 1 as [|o lo Ho _ IH]; constructor;
    [now apply eqb_refl_finite|assumption].
Qed.

(** X3.  The error is symmetric: for two arrays of one shape whose
    first dimension is at least 1, [__call__(outputs, targets)] and
    [__call__(targets, outputs)] are the same value, to the last bit in
    double precision, and over the reals. *)
Theorem call_is_symmetric :
  (forall (outputs targets : ndarray B64.t) (batch_size : nat)
          (dims : list nat),
      shape outputs = batch_size :: dims ->
      shape targets = shape outputs ->
      well_formed outputs -> well_formed targets ->
      1 <= batch_size ->
      SumOfSquaredDiffsError.call outputs targets
      = SumOfSquaredDiffsError.call targets outputs)
  /\ (forall (outputs targets : ndarray R) (batch_size : nat)
             (dims : list nat),
      shape outputs = batch_size :: dims ->
      shape targets = shape outputs ->
      well_formed outputs -> well_formed targets ->
      1 <= batch_size ->
      SumOfSquaredDiffsError.call outputs targets
      = SumOfSquaredDiffsError.call targets outputs).
Proof.
  split; intros outputs targets b dims Ho Ht Wo Wt Hb.
  - rewrite (proj1 (call_grad_any_rank Ho Ht Wo Wt Hb)).
    assert (Ht' : shape targets = b :: dims) by congruence.
    rewrite (proj1 (call_grad_any_rank (outputs := targets)
                      (targets := outputs) Ht' (eq_sym Ht) Wt Wo Hb)).
    unfold sum_squared_diffs. cbn [f_mul f_sub binary64].
    now rewrite squares_comm_double.
  - rewrite (proj1 (call_grad_any_rank Ho Ht Wo Wt Hb)).
    assert (Ht' : shape targets = b :: dims) by congruence.
    rewrite (proj1 (call_grad_any_rank (outputs := targets)
                      (targets := outputs) Ht' (eq_sym Ht) Wt Wo Hb)).
    unfold sum_squared_diffs. cbn [f_mul f_sub exact].
    now rewrite squares_comm_exact.
Qed.

Lemma call_is_symmetric_witness :
  SumOfSquaredDiffsError.call cube_outputs cube_targets
  = SumOfSquaredDiffsError.call cube_targets cube_outputs.
Proof.
  apply (proj1 call_is_symmetric cube_outputs cube_targets 2 [1; 2]).
  - reflexivity.
  - reflexivity.
  - reflexivity.
  - reflexivity.
  - lia.
Defined.

(** X4.  An array compared with itself: when its first dimension is at
    least 1 and, in double precision, its elements are finite,
    [__call__(outputs, outputs)] is exactly [0.0] and
    [grad(outputs, outputs)] is the array of zeros of the shape of
    [outputs]; the same over the reals. *)
Theorem error_and_gradient_vanish_on_equal_arrays :
  (forall (outputs : ndarray B64.t) (batch_size : nat) (dims : list nat),
      shape outputs = batch_size :: dims ->
      well_formed outputs -> 1 <= batch_size ->
      List.Forall (fun x => B64.is_finite x = true) (data outputs) ->
      SumOfSquaredDiffsError.call outputs outputs = Ok (B64.lit 0 0)
      /\ SumOfSquaredDiffsError.grad outputs outputs
         = Ok {| shape := shape outputs;
                 data := repeat (B64.lit 0 0) (length (data outputs)) |})
  /\ (forall (outputs : ndarray R) (batch_size : nat) (dims : list nat),
      shape outputs = batch_size :: dims ->
      well_formed outputs -> 1 <= batch_size ->
      SumOfSquaredDiffsError.call outputs outputs = Ok 0%R
      /\ SumOfSquaredDiffsError.grad outputs outputs
         = Ok {| shape := shape outputs;
                 data := repeat 0%R (length (data outputs)) |}).
Proof.
  split.
  - intros outputs b dims Ho Wo Hb Hf.
    destruct (call_grad_any_rank Ho eq_refl Wo Wo Hb) as [-> ->].
    destruct (@scale_finite (Z.of_nat b) ltac:(lia)) as [Hfin Hsign].
    pose proof (@truediv_one_bounded (Z.of_nat b) ltac:(lia)) as Hc.
    split; f_equal.
    + unfold sum_squared_diffs. cbn [f_mul f_sub f_truediv f_half binary64].
      rewrite (sum_zeros (equal_finite_squares Hf (Forall2_eqb_refl Hf))).
      now apply mul_finite_zero.
    + f_equal. cbn [f_mul f_sub f_truediv binary64].
      rewrite (self_diffs_double Hf), map_repeat. f_equal.
      apply mul_finite_zero.
      * destruct (B64.truediv 1 (Z.of_nat b)); try contradiction;
          reflexivity.
      * destruct (B64.truediv 1 (Z.of_nat b)); try contradiction;
          [exact Hc|exact (proj1 Hc)].
  - intros outputs b dims Ho Wo Hb.
    destruct (call_grad_any_rank Ho eq_refl Wo Wo Hb) as [-> ->].
    split; f_equal.
    + unfold sum_squared_diffs. rewrite sum_of_exact.
      cbn [f_mul f_sub f_truediv f_half exact].
      rewrite self_diffs_exact, sum_squares_of_zeros. ring.
    + f_equal. cbn [f_mul f_sub f_truediv exact].
      rewrite self_diffs_exact, map_repeat. f_equal. ring.
Qed.

Lemma error_and_gradient_vanish_on_equal_arrays_witness :
  SumOfSquaredDiffsError.call cube_outputs cube_outputs = Ok (B64.lit 0 0)
  /\ SumOfSquaredDiffsError.grad cube_outputs cube_outputs
     = Ok {| shape := shape cube_outputs;
             data := repeat (B64.lit 0 0) (length (data cube_outputs)) |}.
Proof.
  apply (proj1 error_and_gradient_vanish_on_equal_arrays
           cube_outputs 2 [1; 2]).
  - reflexivity.
  - reflexivity.
  - lia.
  - repeat constructor.
Defined.

Lemma nan_in_squared_diffs (lo lt : list B64.t) :
  length lo = length lt ->
  In S754_nan lo \/ In S754_nan lt ->
  In S754_nan (map (fun x => B64.mul x x) (elementwise B64.sub lo lt)).
Proof.
  revert lt. unfold elementwise.
  induction lo as [|o lo IH]; intros [|t lt] Hlen Hin; simpl in *;
    try discriminate; [tauto|].
  injection Hlen as Hlen.
  destruct Hin as [[->|Hin]|[->|Hin]].
  - left. reflexivity.
  - right. apply IH; auto.
  - left. now rewrite sub_nan_r.
  - right. apply IH; auto.
Qed.

(** X5.  In double precision a NaN anywhere in [outputs] or [targets]
    makes the error NaN: for two arrays of one shape whose first
    dimension is at least 1, one of which holds a NaN, [__call__]
    returns NaN. *)
Theorem call_propagates_nan :
  forall (outputs targets : ndarray B64.t) (batch_size : nat)
         (dims : list nat),
    shape outputs = batch_size :: dims ->
    shape targets = shape outputs ->
    well_formed outputs -> well_formed targets ->
    1 <= batch_size ->
    In S754_nan (data outputs) \/ In S754_nan (data targets) ->
    SumOfSquaredDiffsError.call outputs targets = Ok S754_nan.
Proof.
  intros outputs targets b dims Ho Ht Wo Wt Hb Hin.
  rewrite (proj1 (call_grad_any_rank Ho Ht Wo Wt Hb)). f_equal.
  assert (Hlen : length (data outputs) = length (data targets)).
  { unfold well_formed in Wo, Wt. rewrite Ht in Wt. congruence. }
  unfold sum_squared_diffs.
  cbn [f_mul f_sub f_truediv f_half binary64].
  rewrite (@sum_with_nan _ (nan_in_squared_diffs _ _ Hlen Hin)).
  apply mul_nan_r.
Qed.

Lemma call_propagates_nan_witness :
  SumOfSquaredDiffsError.call nan_outputs square_outputs = Ok S754_nan.
Proof.
  apply (@call_propagates_nan nan_outputs square_outputs 2 [2]).
  - reflexivity.
  - reflexivity.
  - reflexivity.
  - reflexivity.
  - lia.
  - left. right. left. reflexivity.
Defined.

Section RowBroadcast.

Context {F : Type} `{Scalar F}.

Lemma broadcast_row (b d : nat) (lt : list F) :
  length lt = d ->
  broadcast_to [1; d] [b; d] lt = concat (repeat lt b).
Proof.
  intros Hlen.
  change (broadcast_to [1; d] [b; d] lt)
    with (if 1 =? b
          then flat_map
                 (fun i => broadcast_to [d] [d]
                             (firstn (shape_size [d])
                                     (skipn (i * shape_size [d]) lt)))
                 (seq 0 b)
          else concat (repeat (broadcast_to [d] [d] lt) b)).
  assert (Hrow : broadcast_to [d] [d] lt = lt)
    by (apply broadcast_to_same; cbn; lia).
  destruct (Nat.eqb_spec 1 b) as [<-|Hne].
  - cbn [seq flat_map]. rewrite app_nil_r.
    replace (firstn (shape_size [d]) (skipn (0 * shape_size [d]) lt))
      with lt.
    + rewrite Hrow. cbn [repeat concat]. now rewrite app_nil_r.
    + cbn [shape_size fold_right]. rewrite Nat.mul_0_l, Nat.mul_1_r.
      cbn [skipn]. symmetry. rewrite <- Hlen. apply firstn_all.
  - now rewrite Hrow.
Qed.

Lemma np_sub_row (outputs targets : ndarray F) (b d : nat) :
  shape outputs = [b; d] -> shape targets = [1; d] ->
  well_formed outputs -> well_formed targets ->
  np_sub outputs targets = np_sub outputs (tile_rows targets b d).
Proof.
  intros Ho Ht Wo Wt.
  assert (Wt' : length (data targets) = d)
    by (unfold well_formed in Wt; rewrite Ht in Wt; cbn in Wt; lia).
  rewrite (np_sub_same_shape (b := tile_rows targets b d)).
  - unfold np_sub. rewrite Ho, Ht.
    assert (Hs : broadcast_shapes [b; d] [1; d] = Some [b; d]).
    { unfold broadcast_shapes. cbn [length Nat.max pad_dims Nat.sub repeat app
                                     broadcast_dims].
      rewrite broadcast_dim_refl. unfold broadcast_dim.
      destruct (Nat.eqb_spec b 1) as [->|_]; reflexivity. }
    rewrite Hs. cbn [length pad_dims Nat.sub repeat app].
    rewrite broadcast_to_same by (now unfold well_formed in Wo; rewrite Ho in Wo).
    now rewrite (@broadcast_row b d (data targets) Wt').
  - now rewrite Ho.
  - exact Wo.
  - unfold well_formed, tile_rows. cbn [shape data shape_size fold_right].
    rewrite Nat.mul_1_r. clear -Wt'. induction b as [|b IH]; cbn [repeat concat].
    + reflexivity.
    + rewrite length_app, IH, Wt'. lia.
Qed.

End RowBroadcast.

(** X6.  What the silent broadcast computes: with [outputs] of shape
    [(b, d)] and [targets] of shape [(1, d)], [__call__] and [grad]
    return what they return when the one row of [targets] is repeated
    [b] times. *)
Theorem single_row_targets_are_repeated :
  forall (F : Type) (S : Scalar F) (outputs targets : ndarray F)
         (b d : nat),
    shape outputs = [b; d] -> shape targets = [1; d] ->
    well_formed outputs -> well_formed targets ->
    SumOfSquaredDiffsError.call outputs targets
    = SumOfSquaredDiffsError.call outputs (tile_rows targets b d)
    /\ SumOfSquaredDiffsError.grad outputs targets
       = SumOfSquaredDiffsError.grad outputs (tile_rows targets b d).
Proof.
  intros F S outputs targets b d Ho Ht Wo Wt.
  unfold SumOfSquaredDiffsError.call, SumOfSquaredDiffsError.grad.
  rewrite (np_sub_row Ho Ht Wo Wt). split; reflexivity.
Qed.

Lemma single_row_targets_are_repeated_witness :
  SumOfSquaredDiffsError.call square_outputs row_targets
  = SumOfSquaredDiffsError.call square_outputs (tile_rows row_targets 2 2)
  /\ SumOfSquaredDiffsError.grad square_outputs row_targets
     = SumOfSquaredDiffsError.grad square_outputs
         (tile_rows row_targets 2 2).
Proof.
  apply (@single_row_targets_are_repeated B64.t binary64
           square_outputs row_targets 2 2).
  - reflexivity.
  - reflexivity.
  - reflexivity.
  - reflexivity.
Defined.

(** ** The initialisers on other inputs *)

(** X7.  [ConstantInit(value).__call__] for a shape of any number of
    dimensions up to [NPY_MAXDIMS], the most numpy allows: a negative
    dimension raises numpy's [ValueError] (whatever the number of
    dimensions); a shape of at most [NPY_MAXDIMS] dimensions, none of
    them negative, gives an array of the requested shape with as many
    elements as the product of the dimensions, all equal to [value] (in
    double precision and over the reals). *)
Theorem ConstantInit_call_any_shape :
  (forall (F : Type) (S : Scalar F) (value : F) (shape : list Z),
      List.Exists (fun d => (d < 0)%Z) shape ->
      ConstantInit.call (ConstantInit.init value) shape = Raise ValueError)
  /\ (forall (value : B64.t) (s : list Z),
      valid_binary B64.prec B64.emax value = true ->
      List.Forall (fun d => (0 <= d)%Z) s ->
      length s <= NPY_MAXDIMS ->
      ConstantInit.call (ConstantInit.init value) s
      = Ok {| shape := map Z.to_nat s;
              data := repeat value (shape_size (map Z.to_nat s)) |}
        /\ map Z.of_nat (map Z.to_nat s) = s)
  /\ (forall (value : R) (s : list Z),
      List.Forall (fun d => (0 <= d)%Z) s ->
      length s <= NPY_MAXDIMS ->
      ConstantInit.call (ConstantInit.init value) s
      = Ok {| shape := map Z.to_nat s;
              data := repeat value (shape_size (map Z.to_nat s)) |}
        /\ map Z.of_nat (map Z.to_nat s) = s).
Proof.
  split; [|split].
  - intros F S value shape Hneg. unfold ConstantInit.call, np_ones.
    now rewrite (check_dims_negative Hneg).
  - intros value s Hv Hs Hn. split; [|now apply of_nat_to_nat_dims].
    rewrite (ConstantInit_call_nonneg value Hs Hn).
    cbn [f_mul f_one binary64]. now rewrite (mul_one_l value Hv).
  - intros value s Hs Hn. split; [|now apply of_nat_to_nat_dims].
    rewrite (ConstantInit_call_nonneg value Hs Hn).
    cbn [f_mul f_one exact]. now rewrite Rmult_1_l.
Qed.

Lemma ConstantInit_call_any_shape_witness :
  ConstantInit.call (ConstantInit.init (B64.lit 3 (-2))) [3%Z]
  = Ok {| shape := map Z.to_nat [3%Z];
          data := repeat (B64.lit 3 (-2))
                    (shape_size (map Z.to_nat [3%Z])) |}
  /\ map Z.of_nat (map Z.to_nat [3%Z]) = [3%Z].
Proof.
  apply (proj1 (proj2 ConstantInit_call_any_shape) (B64.lit 3 (-2)) [3%Z]).
  - reflexivity.
  - repeat constructor. lia.
  - unfold NPY_MAXDIMS. cbn. lia.
Defined.

Section SamplingFacts.

Context {F G : Type} `{Scalar F} `{NumpyRandom F G} `{MlpPackage}.

Lemma sample_returns_draws (step : G -> F * G) (r : address) (s : list Z)
    (h : heap G) (g : G) :
  h !! r = Some g ->
  List.Forall (fun d => (0 <= d)%Z) s ->
  length s <= NPY_MAXDIMS ->
  exists (a : ndarray F) (g' : G),
    sample step r s h = (Ok a, <[r := g']> h)
    /\ map Z.of_nat (shape a) = s
    /\ well_formed a
    /\ draws step (shape_size (map Z.to_nat s)) g = (data a, g').
Proof.
  intros Hg Hs Hn. erewrite sample_allocated; [|exact Hg|exact Hs|exact Hn].
  eexists _, _. split; [reflexivity|]. cbn [shape data].
  split; [now apply of_nat_to_nat_dims|]. split.
  - unfold well_formed. cbn [shape data]. apply draws_length.
  - now destruct (draws step _ g).
Qed.

Lemma draws_app (step : G -> F * G) (n1 n2 : nat) :
  forall g : G,
    draws step (n1 + n2) g
    = (fst (draws step n1 g) ++ fst (draws step n2 (snd (draws step n1 g))),
       snd (draws step n2 (snd (draws step n1 g)))).
Proof.
  induction n1 as [|n1 IH]; intros g; cbn [draws Nat.add].
  - cbn [fst snd app]. now destruct (draws step n2 g).
  - destruct (step g) as [x g1]. rewrite (IH g1).
    destruct (draws step n1 g1) as [xs g2]. cbn [fst snd].
    now destruct (draws step n2 g2).
Qed.

End SamplingFacts.

(** X8.  [UniformInit.__call__] and [NormalInit.__call__] on a
    generator that is there and a shape of at most [NPY_MAXDIMS]
    dimensions, none of them negative: when [high - low] is finite (for
    [UniformInit]) or the sign bit of [std] is clear (for
    [NormalInit]), the array has the requested shape and its elements
    are as many successive draws as the product of the dimensions, with
    the parameters stored at construction; the generator is left after
    the last draw.  When the generator's uniform draws stay between
    their bounds and [low <= high], every element of the uniform array
    is between [low] and [high]. *)
Theorem UniformInit_NormalInit_return_draws :
  forall (F G : Type) (S : Scalar F) (N : NumpyRandom F G)
         (s : list Z) (h : heap G) (g : G),
    List.Forall (fun d => (0 <= d)%Z) s ->
    length s <= NPY_MAXDIMS ->
    (forall self : UniformInit.t F,
        h !! UniformInit.rng self = Some g ->
        f_is_finite (f_sub (UniformInit.high self) (UniformInit.low self))
        = true ->
        exists (a : ndarray F) (g' : G),
          UniformInit.call self s h
          = (Ok a, <[UniformInit.rng self := g']> h)
          /\ map Z.of_nat (shape a) = s
          /\ well_formed a
          /\ draws (fun g0 => rk_uniform g0 (UniformInit.low self)
                                (UniformInit.high self))
                   (shape_size (map Z.to_nat s)) g = (data a, g')
          /\ (uniform_within_bounds ->
              f_le (UniformInit.low self) (UniformInit.high self) ->
              List.Forall
                (fun x => f_le (UniformInit.low self) x
                          /\ f_le x (UniformInit.high self))
                (data a)))
    /\ (forall self : NormalInit.t F,
        h !! NormalInit.rng self = Some g ->
        f_signbit (NormalInit.std self) = false ->
        exists (a : ndarray F) (g' : G),
          NormalInit.call self s h
          = (Ok a, <[NormalInit.rng self := g']> h)
          /\ map Z.of_nat (shape a) = s
          /\ well_formed a
          /\ draws (fun g0 => rk_normal g0 (NormalInit.mean self)
                                (NormalInit.std self))
                   (shape_size (map Z.to_nat s)) g = (data a, g')).
Proof.
  intros F G S N s h g Hs Hn. split.
  - intros self Hg Hf. unfold UniformInit.call, RandomState_uniform.
    rewrite Hf.
    destruct (@sample_returns_draws F G
                (fun g0 => rk_uniform g0 (UniformInit.low self)
                             (UniformInit.high self))
                (UniformInit.rng self) s h g Hg Hs Hn)
      as (a & g' & Hcall & Hshape & Hwf & Hdraws).
    exists a, g'. repeat split; try assumption.
    intros Hu Hle.
    replace (data a) with (fst (draws
      (fun g0 => rk_uniform g0 (UniformInit.low self)
                   (UniformInit.high self))
      (shape_size (map Z.to_nat s)) g)) by now rewrite Hdraws.
    apply draws_Forall. intros g0. now apply Hu.
  - intros self Hg Hstd. unfold NormalInit.call, RandomState_normal.
    rewrite Hstd.
    exact (@sample_returns_draws F G
             (fun g0 => rk_normal g0 (NormalInit.mean self)
                          (NormalInit.std self))
             (NormalInit.rng self) s h g Hg Hs Hn).
Qed.

Lemma UniformInit_NormalInit_return_draws_witness :
  exists (a : ndarray B64.t) (g' : Z),
    UniformInit.call uniform_2_5 [1000%Z] heap_of_one
    = (Ok a, <[0 := g']> heap_of_one)
    /\ map Z.of_nat (shape a) = [1000%Z]
    /\ well_formed a
    /\ draws (fun g0 => rk_uniform g0 (B64.lit 2 0) (B64.lit 5 0))
             (shape_size (map Z.to_nat [1000%Z])) 123456%Z = (data a, g')
    /\ (uniform_within_bounds (F := B64.t) (G := Z) ->
        B64.leb (B64.lit 2 0) (B64.lit 5 0) = true ->
        List.Forall
          (fun x => B64.leb (B64.lit 2 0) x = true
                    /\ B64.leb x (B64.lit 5 0) = true)
          (data a)).
Proof.
  apply (proj1 (@UniformInit_NormalInit_return_draws B64.t Z binary64
                  Counter.random [1000%Z] heap_of_one 123456%Z
                  ltac:(repeat constructor; lia)
                  ltac:(unfold NPY_MAXDIMS; cbn; lia)) uniform_2_5).
  - reflexivity.
  - reflexivity.
Defined.

Section NormalScaleFacts.

Context {F G : Type} `{Scalar F} `{NumpyRandom F G} `{MlpPackage}.

Lemma normal_two_dims (r : address) (loc scale : F) (n m : Z)
    (h : heap G) (g : G) :
  (0 < n)%Z -> (0 < m)%Z ->
  h !! r = Some g ->
  f_signbit scale = false ->
  exists (a : ndarray F) (g' : G),
    RandomState_normal r loc scale [n; m] h = (Ok a, <[r := g']> h)
    /\ map Z.of_nat (shape a) = [n; m]
    /\ draws (fun g0 => rk_normal g0 loc scale)
             (Z.to_nat (n * m)) g = (data a, g').
Proof.
  intros Hn Hm Hg Hs. unfold RandomState_normal. rewrite Hs.
  erewrite sample_allocated;
    [|exact Hg|apply two_positive_dims; assumption|apply two_dims_allowed].
  rewrite shape_size_two by assumption.
  eexists _, _. split; [reflexivity|]. cbn [shape data]. split.
  - cbn. f_equal; [|f_equal]; lia.
  - now destruct (draws _ _ g).
Qed.

Lemma KaimingInit_init_mean (rng0 : option address) (h0 h1 : heap G)
    (self : KaimingInit.t) :
  KaimingInit.init rng0 h0 = (Ok self, h1) -> KaimingInit.mean self = 0%Z.
Proof.
  unfold KaimingInit.init, bindM.
  destruct (default_rng_spec rng0 h0) as (r & h' & Hr & _).
  rewrite Hr. unfold ret. intros E. injection E as <- _. reflexivity.
Qed.

Lemma XavierInitNormal_init_mean (rng0 : option address) (h0 h1 : heap G)
    (self : XavierInitNormal.t) :
  XavierInitNormal.init rng0 h0 = (Ok self, h1) ->
  XavierInitNormal.mean self = 0%Z.
Proof.
  unfold XavierInitNormal.init, bindM.
  destruct (default_rng_spec rng0 h0) as (r & h' & Hr & _).
  rewrite Hr. unfold ret. intros E. injection E as <- _. reflexivity.
Qed.

Lemma KaimingInit_call_two_dims (self : KaimingInit.t) (n m : Z)
    (h : heap G) (g : G) :
  KaimingInit.mean self = 0%Z ->
  (0 < n)%Z -> (0 < m)%Z ->
  h !! KaimingInit.rng self = Some g ->
  let scale := f_sqrt (f_truediv 2 m) in
  f_signbit scale = false ->
  exists (a : ndarray F) (g' : G),
    KaimingInit.call self [n; m] h
    = (Ok a, <[KaimingInit.rng self := g']> h)
    /\ map Z.of_nat (shape a) = [n; m]
    /\ draws (fun g0 => rk_normal g0 (f_of_int 0) scale)
             (Z.to_nat (n * m)) g = (data a, g').
Proof.
  intros Hmean Hn Hm Hg scale Hs.
  unfold KaimingInit.call, bindM, lift.
  cbn [tuple_index nth_error]. unfold py_truediv.
  destruct (Z.eqb_spec m 0) as [E|_]; [lia|].
  fold scale. rewrite Hmean. now apply normal_two_dims.
Qed.

Lemma XavierInitNormal_call_two_dims (self : XavierInitNormal.t) (n m : Z)
    (h : heap G) (g : G) :
  XavierInitNormal.mean self = 0%Z ->
  (0 < n)%Z -> (0 < m)%Z ->
  h !! XavierInitNormal.rng self = Some g ->
  let scale := f_sqrt (f_truediv 2 (n + m)) in
  f_signbit scale = false ->
  exists (a : ndarray F) (g' : G),
    XavierInitNormal.call self [n; m] h
    = (Ok a, <[XavierInitNormal.rng self := g']> h)
    /\ map Z.of_nat (shape a) = [n; m]
    /\ draws (fun g0 => rk_normal g0 (f_of_int 0) scale)
             (Z.to_nat (n * m)) g = (data a, g').
Proof.
  intros Hmean Hn Hm Hg scale Hs.
  unfold XavierInitNormal.call, bindM, lift.
  cbn [tuple_index nth_error]. unfold py_truediv.
  destruct (Z.eqb_spec (n + m) 0) as [E|_]; [lia|].
  fold scale. rewrite Hmean. now apply normal_two_dims.
Qed.

End NormalScaleFacts.

Lemma signbit_sqrt_truediv_double (k n : Z) :
  (0 < k)%Z -> (0 < n)%Z ->
  B64.signbit (B64.sqrt (B64.truediv k n)) = false.
Proof.
  intros Hk Hn. now apply sqrt_nonneg, truediv_nonneg.
Qed.

Lemma signbit_sqrt_exact (x : R) : f_signbit (F := R) (sqrt x) = false.
Proof.
  cbn. destruct (Rlt_dec (sqrt x) 0) as [Hlt|_]; [|reflexivity].
  pose proof (sqrt_pos x). lra.
Qed.

(** X9.  A [KaimingInit], however it was constructed, called with a
    shape [(n, m)] of positive integers, returns [n * m] successive
    draws of the generator's normal sampler with [loc = 0] and
    [scale = sqrt(2 / m)], in double precision and over the reals; for
    the shape [(128, 32)] the scale is the double [0.25]. *)
Theorem KaimingInit_draws_normal_with_sqrt_2_over_second_dim :
  (forall (G : Type) (N : NumpyRandom B64.t G) (P : MlpPackage)
          (rng0 : option address) (h0 h1 : heap G) (self : KaimingInit.t)
          (n m : Z) (h : heap G) (g : G),
      KaimingInit.init rng0 h0 = (Ok self, h1) ->
      (0 < n)%Z -> (0 < m)%Z ->
      h !! KaimingInit.rng self = Some g ->
      let scale := B64.sqrt (B64.truediv 2 m) in
      exists (a : ndarray B64.t) (g' : G),
        KaimingInit.call self [n; m] h
        = (Ok a, <[KaimingInit.rng self := g']> h)
        /\ map Z.of_nat (shape a) = [n; m]
        /\ draws (fun g0 => rk_normal g0 (B64.of_int 0) scale)
                 (Z.to_nat (n * m)) g = (data a, g'))
  /\ (forall (G : Type) (N : NumpyRandom R G) (P : MlpPackage)
          (rng0 : option address) (h0 h1 : heap G) (self : KaimingInit.t)
          (n m : Z) (h : heap G) (g : G),
      KaimingInit.init rng0 h0 = (Ok self, h1) ->
      (0 < n)%Z -> (0 < m)%Z ->
      h !! KaimingInit.rng self = Some g ->
      let scale := sqrt (2 / IZR m) in
      exists (a : ndarray R) (g' : G),
        KaimingInit.call self [n; m] h
        = (Ok a, <[KaimingInit.rng self := g']> h)
        /\ map Z.of_nat (shape a) = [n; m]
        /\ draws (fun g0 => rk_normal g0 0%R scale)
                 (Z.to_nat (n * m)) g = (data a, g'))
  /\ B64.sqrt (B64.truediv 2 32) = B64.lit 1 (-2).
Proof.
  split; [|split; [|vm_compute; reflexivity]].
  - intros G N P rng0 h0 h1 self n m h g Hinit Hn Hm Hg scale.
    exact (@KaimingInit_call_two_dims B64.t G binary64 N self n m h g
             (KaimingInit_init_mean rng0 h0 Hinit) Hn Hm Hg
             (@signbit_sqrt_truediv_double 2 m ltac:(lia) Hm)).
  - intros G N P rng0 h0 h1 self n m h g Hinit Hn Hm Hg scale.
    exact (@KaimingInit_call_two_dims R G exact N self n m h g
             (KaimingInit_init_mean rng0 h0 Hinit) Hn Hm Hg
             (signbit_sqrt_exact _)).
Qed.

Lemma KaimingInit_draws_normal_with_sqrt_2_over_second_dim_witness :
  let scale := B64.sqrt (B64.truediv 2 32) in
  exists (a : ndarray B64.t) (g' : Z),
    KaimingInit.call {| KaimingInit.mean := 0; KaimingInit.rng := 0 |}
      [128; 32]%Z heap_of_one
    = (Ok a, <[0 := g']> heap_of_one)
    /\ map Z.of_nat (shape a) = [128; 32]%Z
    /\ draws (fun g0 => rk_normal g0 (B64.of_int 0) scale)
             (Z.to_nat (128 * 32)) 123456%Z = (data a, g').
Proof.
  apply (proj1 KaimingInit_draws_normal_with_sqrt_2_over_second_dim
           Z Counter.random Counter.package None ∅ heap_of_one
           {| KaimingInit.mean := 0; KaimingInit.rng := 0 |} 128%Z 32%Z
           heap_of_one 123456%Z).
  - reflexivity.
  - lia.
  - lia.
  - reflexivity.
Defined.

(** X10.  A [XavierInitNormal], however it was constructed, called
    with a shape [(n, m)] of positive integers, returns [n * m]
    successive draws of the generator's normal sampler with [loc = 0]
    and [scale = sqrt(2 / (n + m))], in double precision and over the
    reals. *)
Theorem XavierInitNormal_draws_normal_with_sqrt_2_over_fans :
  (forall (G : Type) (N : NumpyRandom B64.t G) (P : MlpPackage)
          (rng0 : option address) (h0 h1 : heap G)
          (self : XavierInitNormal.t) (n m : Z) (h : heap G) (g : G),
      XavierInitNormal.init rng0 h0 = (Ok self, h1) ->
      (0 < n)%Z -> (0 < m)%Z ->
      h !! XavierInitNormal.rng self = Some g ->
      let scale := B64.sqrt (B64.truediv 2 (n + m)) in
      exists (a : ndarray B64.t) (g' : G),
        XavierInitNormal.call self [n; m] h
        = (Ok a, <[XavierInitNormal.rng self := g']> h)
        /\ map Z.of_nat (shape a) = [n; m]
        /\ draws (fun g0 => rk_normal g0 (B64.of_int 0) scale)
                 (Z.to_nat (n * m)) g = (data a, g'))
  /\ (forall (G : Type) (N : NumpyRandom R G) (P : MlpPackage)
          (rng0 : option address) (h0 h1 : heap G)
          (self : XavierInitNormal.t) (n m : Z) (h : heap G) (g : G),
      XavierInitNormal.init rng0 h0 = (Ok self, h1) ->
      (0 < n)%Z -> (0 < m)%Z ->
      h !! XavierInitNormal.rng self = Some g ->
      let scale := sqrt (2 / IZR (n + m)) in
      exists (a : ndarray R) (g' : G),
        XavierInitNormal.call self [n; m] h
        = (Ok a, <[XavierInitNormal.rng self := g']> h)
        /\ map Z.of_nat (shape a) = [n; m]
        /\ draws (fun g0 => rk_normal g0 0%R scale)
                 (Z.to_nat (n * m)) g = (data a, g')).
Proof.
  split.
  - intros G N P rng0 h0 h1 self n m h g Hinit Hn Hm Hg scale.
    exact (@XavierInitNormal_call_two_dims B64.t G binary64 N self n m h g
             (XavierInitNormal_init_mean rng0 h0 Hinit) Hn Hm Hg
             (@signbit_sqrt_truediv_double 2 (n + m) ltac:(lia)
                ltac:(lia))).
  - intros G N P rng0 h0 h1 self n m h g Hinit Hn Hm Hg scale.
    exact (@XavierInitNormal_call_two_dims R G exact N self n m h g
             (XavierInitNormal_init_mean rng0 h0 Hinit) Hn Hm Hg
             (signbit_sqrt_exact _)).
Qed.

Lemma XavierInitNormal_draws_normal_with_sqrt_2_over_fans_witness :
  let scale := B64.sqrt (B64.truediv 2 (256 + 64)) in
  exists (a : ndarray B64.t) (g' : Z),
    XavierInitNormal.call
      {| XavierInitNormal.mean := 0; XavierInitNormal.rng := 0 |}
      [256; 64]%Z heap_of_one
    = (Ok a, <[0 := g']> heap_of_one)
    /\ map Z.of_nat (shape a) = [256; 64]%Z
    /\ draws (fun g0 => rk_normal g0 (B64.of_int 0) scale)
             (Z.to_nat (256 * 64)) 123456%Z = (data a, g').
Proof.
  apply (proj1 XavierInitNormal_draws_normal_with_sqrt_2_over_fans
           Z Counter.random Counter.package None ∅ heap_of_one
           {| XavierInitNormal.mean := 0; XavierInitNormal.rng := 0 |}
           256%Z 64%Z heap_of_one 123456%Z).
  - reflexivity.
  - lia.
  - lia.
  - reflexivity.
Defined.

(** ** Construction and the heap *)

Section ConstructorFacts.

Context {F G : Type} `{Scalar F} `{NumpyRandom F G} `{MlpPackage}.

Lemma default_rng_heap (rng : option address) (h : heap G) :
  exists (r : address) (h' : heap G),
    default_rng rng h = (Ok r, h')
    /\ (forall (r0 : address) (g : G),
           h !! r0 = Some g -> h' !! r0 = Some g)
    /\ match rng with
       | Some r0 => r = r0 /\ h' = h
       | None =>
           h !! r = None
           /\ h' !! r = Some (RandomState_seed DEFAULT_SEED)
       end.
Proof.
  destruct (default_rng_spec rng h) as (r & h' & Hr & Hspec).
  exists r, h'. split; [exact Hr|]. destruct rng as [r0|].
  - destruct Hspec as [-> ->]. split; [auto|split; reflexivity].
  - destruct Hspec as [Hfresh ->]. split; [|split].
    + intros r0 g Hg. rewrite lookup_insert_ne; [exact Hg|].
      intros ->. congruence.
    + exact Hfresh.
    + apply lookup_insert_eq.
Qed.

(** A constructor that defaults the generator, then stores it in the
    field [rng_of] of the object it returns. *)
Lemma constructs_generator_intro {T : Type} (make : address -> T)
    (rng_of : T -> address) :
  (forall r, rng_of (make r) = r) ->
  constructs_generator
    (fun rng => bindM (default_rng rng) (fun r' => ret (make r')))
    rng_of.
Proof.
  intros Hmake rng h.
  destruct (default_rng_heap rng h) as (r & h' & Hr & Hkeep & Hspec).
  exists (make r), h'. unfold bindM, ret. rewrite Hr.
  split; [reflexivity|]. split; [exact Hkeep|].
  rewrite Hmake. exact Hspec.
Qed.

End ConstructorFacts.

(** X11.  The six constructors that take [rng]: constructing never
    raises and never changes a generator that is there; with a
    generator given, the object holds that very generator and the heap
    is as before (no new object, no seeding); with [rng=None], the
    object holds a new generator, at an address that was free, in the
    state of [DEFAULT_SEED]. *)
Theorem constructors_keep_or_create_the_generator :
  forall (F G : Type) (S : Scalar F) (N : NumpyRandom F G) (P : MlpPackage),
    (forall low high : F,
        constructs_generator (UniformInit.init low high) UniformInit.rng)
    /\ (forall mean std : F,
        constructs_generator (NormalInit.init mean std) NormalInit.rng)
    /\ constructs_generator SqrtInit.init SqrtInit.rng
    /\ constructs_generator XavierInit.init XavierInit.rng
    /\ constructs_generator XavierInitNormal.init XavierInitNormal.rng
    /\ constructs_generator KaimingInit.init KaimingInit.rng.
Proof.
  intros F G S N P. repeat split; intros.
  - exact (constructs_generator_intro
             (fun r => {| UniformInit.low := low; UniformInit.high := high;
                          UniformInit.rng := r |})
             UniformInit.rng (fun r => eq_refl)).
  - exact (constructs_generator_intro
             (fun r => {| NormalInit.mean := mean; NormalInit.std := std;
                          NormalInit.rng := r |})
             NormalInit.rng (fun r => eq_refl)).
  - exact (constructs_generator_intro
             (fun r => {| SqrtInit.mean := 0; SqrtInit.rng := r |})
             SqrtInit.rng (fun r => eq_refl)).
  - exact (constructs_generator_intro
             (fun r => {| XavierInit.rng := r |})
             XavierInit.rng (fun r => eq_refl)).
  - exact (constructs_generator_intro
             (fun r => {| XavierInitNormal.mean := 0;
                          XavierInitNormal.rng := r |})
             XavierInitNormal.rng (fun r => eq_refl)).
  - exact (constructs_generator_intro
             (fun r => {| KaimingInit.mean := 0; KaimingInit.rng := r |})
             KaimingInit.rng (fun r => eq_refl)).
Qed.

(** ** Calls in sequence *)

(** X12.  Two calls in a row continue one stream: calling a
    [UniformInit] whose range [high - low] is finite with a shape of
    [n1] elements and then with a shape of [n2] elements (both of at
    most [NPY_MAXDIMS] dimensions, none of them negative) returns, in
    order, the [n1 + n2] draws that one request of [n1 + n2] elements
    would make, and leaves the generator in the same state. *)
Theorem UniformInit_calls_continue_the_stream :
  forall (F G : Type) (S : Scalar F) (N : NumpyRandom F G)
         (self : UniformInit.t F) (s1 s2 : list Z) (h : heap G) (g : G),
    f_is_finite (f_sub (UniformInit.high self) (UniformInit.low self))
    = true ->
    List.Forall (fun d => (0 <= d)%Z) s1 -> length s1 <= NPY_MAXDIMS ->
    List.Forall (fun d => (0 <= d)%Z) s2 -> length s2 <= NPY_MAXDIMS ->
    h !! UniformInit.rng self = Some g ->
    exists (a1 a2 : ndarray F) (h1 : heap G) (g2 : G),
      UniformInit.call self s1 h = (Ok a1, h1)
      /\ UniformInit.call self s2 h1
         = (Ok a2, <[UniformInit.rng self := g2]> h)
      /\ draws (fun g0 => rk_uniform g0 (UniformInit.low self)
                            (UniformInit.high self))
               (shape_size (map Z.to_nat s1)
                + shape_size (map Z.to_nat s2)) g
         = (data a1 ++ data a2, g2).
Proof.
  intros F G S N self s1 s2 h g Hf Hs1 Hn1 Hs2 Hn2 Hg.
  set (step := fun g0 => rk_uniform g0 (UniformInit.low self)
                           (UniformInit.high self)).
  set (n1 := shape_size (map Z.to_nat s1)).
  set (n2 := shape_size (map Z.to_nat s2)).
  set (r := UniformInit.rng self) in *.
  unfold UniformInit.call, RandomState_uniform. rewrite Hf. fold step r.
  erewrite sample_allocated; [|exact Hg|exact Hs1|exact Hn1]. fold n1.
  eexists _, _, _, _. split; [reflexivity|].
  erewrite sample_allocated; [|apply lookup_insert_eq|exact Hs2|exact Hn2].
  fold n2.
  rewrite insert_insert_eq. split; [reflexivity|].
  cbn [data]. apply draws_app.
Qed.

Lemma UniformInit_calls_continue_the_stream_witness :
  exists (a1 a2 : ndarray B64.t) (h1 : heap Z) (g2 : Z),
    UniformInit.call uniform_2_5 [2; 3]%Z heap_of_one = (Ok a1, h1)
    /\ UniformInit.call uniform_2_5 [4%Z] h1
       = (Ok a2, <[0 := g2]> heap_of_one)
    /\ draws (fun g0 => rk_uniform g0 (B64.lit 2 0) (B64.lit 5 0))
             (shape_size (map Z.to_nat [2; 3]%Z)
              + shape_size (map Z.to_nat [4%Z])) 123456%Z
       = (data a1 ++ data a2, g2).
Proof.
  apply (@UniformInit_calls_continue_the_stream B64.t Z binary64
           Counter.random uniform_2_5 [2; 3]%Z [4%Z] heap_of_one 123456%Z).
  - reflexivity.
  - repeat constructor; lia.
  - unfold NPY_MAXDIMS. cbn. lia.
  - repeat constructor; lia.
  - unfold NPY_MAXDIMS. cbn. lia.
  - reflexivity.
Defined.

(** ** Dimensions that add up to zero *)

(** X13.  [XavierInit] and [XavierInitNormal] called with a shape whose
    first two dimensions add up to 0, and [KaimingInit] called with a
    shape whose second dimension is 0, raise [ZeroDivisionError], and
    the generator is not touched. *)
Theorem zero_fan_raises_ZeroDivisionError :
  forall (F G : Type) (S : Scalar F) (N : NumpyRandom F G)
         (n m : Z) (dims : list Z) (h : heap G),
    ((n + m = 0)%Z ->
     (forall self : XavierInit.t,
         XavierInit.call self (n :: m :: dims) h
         = (Raise ZeroDivisionError, h))
     /\ (forall self : XavierInitNormal.t,
         XavierInitNormal.call self (n :: m :: dims) h
         = (Raise ZeroDivisionError, h)))
    /\ (m = 0%Z ->
        forall self : KaimingInit.t,
          KaimingInit.call self (n :: m :: dims) h
          = (Raise ZeroDivisionError, h)).
Proof.
  intros F G S N n m dims h. split.
  - intros Hz. split; intros self.
    + unfold XavierInit.call, XavierInit.bound, bindM, lift.
      cbn [tuple_index nth_error bind]. unfold py_truediv.
      rewrite Hz. reflexivity.
    + unfold XavierInitNormal.call, bindM, lift.
      cbn [tuple_index nth_error]. unfold py_truediv.
      rewrite Hz. reflexivity.
  - intros -> self. unfold KaimingInit.call, bindM, lift.
    cbn [tuple_index nth_error]. reflexivity.
Qed.

Lemma zero_fan_raises_ZeroDivisionError_witness :
  XavierInit.call (F := B64.t) {| XavierInit.rng := 0 |} [0; 0]%Z
    heap_of_one
  = (Raise ZeroDivisionError, heap_of_one).
Proof.
  apply (proj1 (proj1 (@zero_fan_raises_ZeroDivisionError B64.t Z binary64
                         Counter.random 0%Z 0%Z [] heap_of_one)
                  ltac:(reflexivity))).
Defined.

(** ** Negative dimensions *)

(** X14.  Calls that fail leave the generator as it was.  A
    [UniformInit] whose range [high - low] is not finite (infinite or
    NaN) raises numpy's [OverflowError] whatever the shape, negative
    dimensions included: the range is checked before the shape is
    looked at.  A [UniformInit] whose range is finite, and a
    [NormalInit], called with a shape that has a negative dimension
    raise numpy's [ValueError]. *)
Theorem failed_calls_keep_the_generator :
  forall (F G : Type) (S : Scalar F) (N : NumpyRandom F G)
         (s : list Z) (h : heap G) (g : G),
    (forall self : UniformInit.t F,
        f_is_finite (f_sub (UniformInit.high self) (UniformInit.low self))
        = false ->
        UniformInit.call self s h = (Raise OverflowError, h))
    /\ (List.Exists (fun d => (d < 0)%Z) s ->
        (forall self : UniformInit.t F,
            h !! UniformInit.rng self = Some g ->
            f_is_finite
              (f_sub (UniformInit.high self) (UniformInit.low self))
            = true ->
            UniformInit.call self s h = (Raise ValueError, h))
        /\ (forall self : NormalInit.t F,
            h !! NormalInit.rng self = Some g ->
            NormalInit.call self s h = (Raise ValueError, h))).
Proof.
  intros F G S N s h g. split; [|intros Hneg; split].
  - intros self Hf. unfold UniformInit.call, RandomState_uniform.
    now rewrite Hf.
  - intros self Hg Hf.
    unfold UniformInit.call, RandomState_uniform, sample.
    now rewrite Hf, Hg, (check_dims_negative Hneg).
  - intros self Hg.
    unfold NormalInit.call, RandomState_normal, sample, lift.
    destruct (f_signbit (NormalInit.std self)); [reflexivity|].
    now rewrite Hg, (check_dims_negative Hneg).
Qed.

Lemma failed_calls_keep_the_generator_witness :
  UniformInit.call uniform_huge [2%Z] heap_of_one
  = (Raise OverflowError, heap_of_one)
  /\ UniformInit.call uniform_nan_1 [2; -1]%Z heap_of_one
     = (Raise OverflowError, heap_of_one)
  /\ UniformInit.call uniform_2_5 [2; -1]%Z heap_of_one
     = (Raise ValueError, heap_of_one).
Proof.
  split; [|split].
  - apply (proj1 (@failed_calls_keep_the_generator
                    B64.t Z binary64 Counter.random [2%Z] heap_of_one
                    123456%Z) uniform_huge).
    reflexivity.
  - apply (proj1 (@failed_calls_keep_the_generator
                    B64.t Z binary64 Counter.random [2; -1]%Z heap_of_one
                    123456%Z) uniform_nan_1).
    reflexivity.
  - apply (proj1 (proj2 (@failed_calls_keep_the_generator
                           B64.t Z binary64 Counter.random [2; -1]%Z
                           heap_of_one 123456%Z)
                    ltac:(right; left; lia)) uniform_2_5).
    + reflexivity.
    + reflexivity.
Defined.
